(** * The frame orchestrator of df-view-lobby

    A shallow embedding of
    [src/Frontend/Renderers/GameRenderer/Renderer.ts]: the [Renderer]
    singleton, its render loop and its per-frame draw phase.

    The renderer is stateful code that talks to opaque collaborators (the
    WebGL context manager, the 2D overlay, the entity renderers and render
    managers, the game UI manager, the browser's animation-frame scheduler
    and its clock).  The embedding is a state monad over an explicit
    [World]: an object store for the [Renderer] instances, the static
    [Renderer.instance] field, the scheduler's pending callbacks, and the
    trace of every call that crosses the boundary of [Renderer.ts]. *)

From Stdlib Require Import ZArith List Lia.
From stdpp Require Import base option list sorting gmap.
Import ListNotations.

(** ** Data *)

(** DOM elements, objects of the store and plugin managers are known by
    their identity only. *)
Abbreviation Canvas := nat (only parsing).
Abbreviation Ref := nat (only parsing).
Abbreviation PluginManager := nat (only parsing).

(** The scene snapshot of [getLocationsAndChunks]: visible locations and
    explored chunks, each known by an identifier. *)
Abbreviation Locations := (list nat) (only parsing).
Abbreviation Chunks := (list nat) (only parsing).

(** A draw command held by a primitive batcher (vertices, a glyph run, a
    sprite instance): opaque. *)
Abbreviation Cmd := nat (only parsing).

(** The 2D drawing context of a canvas ([canvas.getContext('2d')]). *)
Inductive Ctx2D : Type :=
| Ctx2DOf (c : Canvas).

(** The six batches that [draw] flushes: [lineRenderer], the batch behind
    [planetRenderManager.flush()], [circleRenderer], [rectRenderer],
    [textRenderer] and [spriteRenderer]. *)
Inductive Batcher : Type :=
| LineB | PlanetB | CircleB | RectB | TextB | SpriteB.

#[global] Instance Batcher_eq_dec : EqDecision Batcher.
Proof. solve_decision. Defined.

(** The sub-components a [Renderer] constructs. *)
Inductive Component : Type :=
| GameGLManagerC | Overlay2DRendererC
| BackgroundRendererC | PlanetRendererC | AsteroidRendererC | BeltRendererC
| MineRendererC | SpriteRendererC | QuasarRendererC | SpacetimeRipRendererC
| RuinsRendererC | RingRendererC | BlackDomainRendererC
| LineRendererC | CircleRendererC | RectRendererC | TextRendererC
| VoyageRendererC | WormholeRendererC | PlanetRenderManagerC | UIRendererC.

(** The [queue*()] calls that [draw] issues on the render managers. *)
Inductive QueueCall : Type :=
| QueueBorders | QueueSelectedRangeRing | QueueSelectedRect
| QueueHoveringRect | QueueMousePath
| QueueVoyages
| QueueWormholes
| QueuePlanets (locations : Locations) (now : Z).

(** Every call that leaves [Renderer.ts], in the order it is made. *)
Inductive Event : Type :=
| EvNew (c : Component)
| EvDateNow (t : Z)
| EvSetProjectionMatrix
| EvOverlayClear
| EvGLClear
| EvGetLocationsAndChunks
| EvDrawChunks (chunks : Chunks)
| EvQueue (q : QueueCall)
| EvDrawMiner
| EvFlush (b : Batcher)
| EvGetPluginManager
| EvDrawAllRunningPlugins (p : PluginManager) (c : Ctx2D)
| EvRequestAnimationFrame (id : nat)
| EvCancelAnimationFrame (id : option nat).

(** What has been drawn on the WebGL surface since it was last cleared,
    bottom first. *)
Inductive Drawn : Type :=
| DChunk (c : nat)
| DCmd (b : Batcher) (c : Cmd).

(** What has been drawn on the 2D overlay since it was last cleared. *)
Inductive OverlayDrawn : Type :=
| OMiner
| OPlugins (p : PluginManager).

(** The state provider.  Its answers change as the game goes on: the
    [n]-th query that the renderer sends to the outside world is answered
    by the oracle at [n]. *)
Record GameUIManager : Type := {
  getLocationsAndChunks : nat -> Locations * Chunks;
  getPluginManager : nat -> option PluginManager
}.

Record GameGLManager : Type := {
  glSurface : Canvas;
  drawn : list Drawn
}.

Record Overlay2DRenderer : Type := {
  ctx : Ctx2D;
  overlayDrawn : list OverlayDrawn
}.

(** The fields of a [Renderer].  [frameRequestId] is [None] until the
    first assignment (the field is declared without initialiser).
    [frameCount] is a JavaScript number that only ever holds a counter
    incremented by one from zero, exact below 2^53: an integer here.
    [batch b] is the pending queue of batcher [b]. *)
Record Renderer : Type := {
  canvas : Canvas;
  glCanvas : Canvas;
  bufferCanvas : Canvas;
  frameRequestId : option nat;
  gameUIManager : GameUIManager;
  frameCount : Z;
  now : Z;
  glManager : GameGLManager;
  overlay2dRenderer : Overlay2DRenderer;
  batch : Batcher -> list Cmd
}.

(** Ghost: what the callees of one draw phase can read of the renderer,
    through their back-reference and the static field: the object that
    draws, its frame counter, and [Renderer.instance]. *)
Record Seen : Type := {
  seen_this : Ref;
  seen_frameCount : Z;
  seen_instance : option Ref
}.

(** The process-wide state.  [heap] is the object store ([Ref] = index),
    [instance] the static field [Renderer.instance], [pending] the
    callbacks the host scheduler holds (request id to the [this] that the
    closure [() => this.loop()] captured), [envPos] the number of oracle
    queries answered so far.  [framesSeen] is ghost state: one entry for
    each draw phase that has run. *)
Record World : Type := {
  heap : list Renderer;
  instance : option Ref;
  pending : gmap nat Ref;
  nextRequestId : nat;
  envPos : nat;
  trace : list Event;
  framesSeen : list Seen
}.

(** The activation of an instance method: [self] is the reference held by
    [this], [this] the object's fields while the method runs. *)
Record Activation : Type := {
  self : Ref;
  this : Renderer;
  world : World
}.

(** ** Field updates *)

Definition set_heap (h : list Renderer) (w : World) : World :=
  {| heap := h; instance := instance w; pending := pending w;
     nextRequestId := nextRequestId w; envPos := envPos w;
     trace := trace w; framesSeen := framesSeen w |}.

Definition set_instance (i : option Ref) (w : World) : World :=
  {| heap := heap w; instance := i; pending := pending w;
     nextRequestId := nextRequestId w; envPos := envPos w;
     trace := trace w; framesSeen := framesSeen w |}.

Definition set_pending (p : gmap nat Ref) (w : World) : World :=
  {| heap := heap w; instance := instance w; pending := p;
     nextRequestId := nextRequestId w; envPos := envPos w;
     trace := trace w; framesSeen := framesSeen w |}.

Definition set_nextRequestId (n : nat) (w : World) : World :=
  {| heap := heap w; instance := instance w; pending := pending w;
     nextRequestId := n; envPos := envPos w;
     trace := trace w; framesSeen := framesSeen w |}.

Definition set_envPos (n : nat) (w : World) : World :=
  {| heap := heap w; instance := instance w; pending := pending w;
     nextRequestId := nextRequestId w; envPos := n;
     trace := trace w; framesSeen := framesSeen w |}.

Definition set_trace (t : list Event) (w : World) : World :=
  {| heap := heap w; instance := instance w; pending := pending w;
     nextRequestId := nextRequestId w; envPos := envPos w;
     trace := t; framesSeen := framesSeen w |}.

Definition set_framesSeen (f : list Seen) (w : World) : World :=
  {| heap := heap w; instance := instance w; pending := pending w;
     nextRequestId := nextRequestId w; envPos := envPos w;
     trace := trace w; framesSeen := f |}.

Definition set_frameRequestId (i : option nat) (r : Renderer) : Renderer :=
  {| canvas := canvas r; glCanvas := glCanvas r; bufferCanvas := bufferCanvas r;
     frameRequestId := i; gameUIManager := gameUIManager r;
     frameCount := frameCount r; now := now r; glManager := glManager r;
     overlay2dRenderer := overlay2dRenderer r; batch := batch r |}.

Definition set_frameCount (n : Z) (r : Renderer) : Renderer :=
  {| canvas := canvas r; glCanvas := glCanvas r; bufferCanvas := bufferCanvas r;
     frameRequestId := frameRequestId r; gameUIManager := gameUIManager r;
     frameCount := n; now := now r; glManager := glManager r;
     overlay2dRenderer := overlay2dRenderer r; batch := batch r |}.

Definition set_now (t : Z) (r : Renderer) : Renderer :=
  {| canvas := canvas r; glCanvas := glCanvas r; bufferCanvas := bufferCanvas r;
     frameRequestId := frameRequestId r; gameUIManager := gameUIManager r;
     frameCount := frameCount r; now := t; glManager := glManager r;
     overlay2dRenderer := overlay2dRenderer r; batch := batch r |}.

Definition set_drawn (d : list Drawn) (r : Renderer) : Renderer :=
  {| canvas := canvas r; glCanvas := glCanvas r; bufferCanvas := bufferCanvas r;
     frameRequestId := frameRequestId r; gameUIManager := gameUIManager r;
     frameCount := frameCount r; now := now r;
     glManager := {| glSurface := glSurface (glManager r); drawn := d |};
     overlay2dRenderer := overlay2dRenderer r; batch := batch r |}.

Definition set_overlayDrawn (d : list OverlayDrawn) (r : Renderer) : Renderer :=
  {| canvas := canvas r; glCanvas := glCanvas r; bufferCanvas := bufferCanvas r;
     frameRequestId := frameRequestId r; gameUIManager := gameUIManager r;
     frameCount := frameCount r; now := now r; glManager := glManager r;
     overlay2dRenderer :=
       {| ctx := ctx (overlay2dRenderer r); overlayDrawn := d |};
     batch := batch r |}.

Definition set_batch (q : Batcher -> list Cmd) (r : Renderer) : Renderer :=
  {| canvas := canvas r; glCanvas := glCanvas r; bufferCanvas := bufferCanvas r;
     frameRequestId := frameRequestId r; gameUIManager := gameUIManager r;
     frameCount := frameCount r; now := now r; glManager := glManager r;
     overlay2dRenderer := overlay2dRenderer r; batch := q |}.

(** ** The state monad *)

Definition State (S A : Type) : Type := S -> A * S.

Definition ret {S A : Type} (a : A) : State S A := fun s => (a, s).

Definition bind {S A B : Type} (m : State S A) (k : A -> State S B) : State S B :=
  fun s => let '(a, s') := m s in k a s'.

Definition exec {S A : Type} (m : State S A) (s : S) : S := snd (m s).
Definition eval {S A : Type} (m : State S A) (s : S) : A := fst (m s).

Declare Scope state_scope.
Delimit Scope state_scope with state.
Notation "'do' x <- m ; k" := (bind m (fun x => k))
  (at level 10, x name, m at level 100, k at level 200,
   format "'[v' 'do'  x  <-  m ; '/' k ']'") : state_scope.
Notation "'do' ' p <- m ; k" := (bind m (fun x => match x with p => k end))
  (at level 10, p pattern, m at level 100, k at level 200, only parsing) : state_scope.
Notation "m >> k" := (bind m (fun _ => k))
  (at level 100, k at level 200, right associativity) : state_scope.
Open Scope state_scope.

(** An instance method runs on an activation; a static method, the
    constructor and the host run on the world. *)
Abbreviation Method := (State Activation).
Abbreviation Static := (State World).

Definition lift {A : Type} (m : Static A) : Method A :=
  fun a => let '(x, w) := m (world a) in
           (x, {| self := self a; this := this a; world := w |}).

Definition get_this {A : Type} (f : Renderer -> A) : Method A :=
  fun a => (f (this a), a).

Definition get_self : Method Ref :=
  fun a => (self a, a).

Definition update_this (f : Renderer -> Renderer) : Method unit :=
  fun a => (tt, {| self := self a; this := f (this a); world := world a |}).

(** [invoke ref m]: the call [ref.m()].  The object's fields are read from
    the store when the method starts and written back when it returns; no
    method of this file touches another object of the store meanwhile. *)
Definition invoke (ref : Ref) (m : Method unit) : Static unit :=
  fun w =>
    match heap w !! ref with
    | Some r =>
        let a := exec m {| self := ref; this := r; world := w |} in
        (tt, set_heap (<[self a := this a]> (heap (world a))) (world a))
    | None => (tt, w)
    end.

(** ** The collaborators *)

(** What lies outside [Renderer.ts] and is not fixed by an argument of
    [initialize]: the clock behind [Date.now()], and what each [queue*()]
    call of a render manager pushes into the primitive batchers.  The
    managers hold a back-reference to the renderer, so what they queue may
    depend on the frame: on its frame counter and on its timestamp. *)
Class Collaborators : Type := {
  Date_now : nat -> Z;
  queued : QueueCall -> Z -> Z -> list (Batcher * Cmd)
}.

Section Renderer.

Context `{Collaborators}.

(** *** Calls on the host and on the sub-components *)

Definition emit (e : Event) : Static unit :=
  fun w => (tt, set_trace (trace w ++ [e]) w).

(** [Date.now()]. *)
Definition Date_now_call : Static Z :=
  fun w =>
    let t := Date_now (envPos w) in
    (t, set_envPos (S (envPos w)) (set_trace (trace w ++ [EvDateNow t]) w)).

(** [window.requestAnimationFrame(() => this.loop())]: the host hands out
    a fresh request id and keeps the callback until it runs or is
    cancelled. *)
Definition window_requestAnimationFrame (callback_this : Ref) : Static nat :=
  fun w =>
    let id := nextRequestId w in
    (id, set_nextRequestId (S id)
           (set_pending (<[id := callback_this]> (pending w))
              (set_trace (trace w ++ [EvRequestAnimationFrame id]) w))).

(** [window.cancelAnimationFrame(id)]: a request that is not pending, or
    an id that is not a number, is ignored. *)
Definition window_cancelAnimationFrame (id : option nat) : Static unit :=
  fun w =>
    (tt, set_pending (match id with
                      | Some k => delete k (pending w)
                      | None => pending w
                      end)
           (set_trace (trace w ++ [EvCancelAnimationFrame id]) w)).

(** [new C(...)] for a sub-component. *)
Definition new_component (c : Component) : Static unit := emit (EvNew c).

Definition glManager_setProjectionMatrix : Method unit :=
  lift (emit EvSetProjectionMatrix).

Definition overlay2dRenderer_clear : Method unit :=
  lift (emit EvOverlayClear) >> update_this (set_overlayDrawn []).

Definition glManager_clear : Method unit :=
  lift (emit EvGLClear) >> update_this (set_drawn []).

Definition gameUIManager_getLocationsAndChunks : Method (Locations * Chunks) :=
  fun a =>
    let w := world a in
    (getLocationsAndChunks (gameUIManager (this a)) (envPos w),
     {| self := self a; this := this a;
        world := set_envPos (S (envPos w))
                   (set_trace (trace w ++ [EvGetLocationsAndChunks]) w) |}).

Definition gameUIManager_getPluginManager : Method (option PluginManager) :=
  fun a =>
    let w := world a in
    (getPluginManager (gameUIManager (this a)) (envPos w),
     {| self := self a; this := this a;
        world := set_envPos (S (envPos w))
                   (set_trace (trace w ++ [EvGetPluginManager]) w) |}).

(** [bgRenderer.drawChunks(chunks)] draws at once, without a batch. *)
Definition bgRenderer_drawChunks (chunks : Chunks) : Method unit :=
  lift (emit (EvDrawChunks chunks)) >>
  update_this (fun r => set_drawn (drawn (glManager r) ++ (DChunk <$> chunks)) r).

(** [uiRenderManager.drawMiner()] draws on the 2D overlay at once. *)
Definition uiRenderManager_drawMiner : Method unit :=
  lift (emit EvDrawMiner) >>
  update_this (fun r => set_overlayDrawn (overlayDrawn (overlay2dRenderer r) ++ [OMiner]) r).

Definition pluginManager_drawAllRunningPlugins (p : PluginManager) (c : Ctx2D)
  : Method unit :=
  lift (emit (EvDrawAllRunningPlugins p c)) >>
  update_this (fun r => set_overlayDrawn (overlayDrawn (overlay2dRenderer r) ++ [OPlugins p]) r).

(** Modelled from the spec: the primitive batchers ([LineRenderer],
    [CircleRenderer], [RectRenderer], [TextRenderer], [SpriteRenderer] and
    the batch of [PlanetRenderManager]) are not in the sources.  By the
    spec, [queue] "appends a draw command to the pending batch". *)
Definition batcher_queue (p : Batcher * Cmd) (q : Batcher -> list Cmd)
  : Batcher -> list Cmd :=
  fun b => if decide (b = fst p) then q b ++ [snd p] else q b.

(** Modelled from the spec: the bodies of the managers' [queue*()] methods
    are not in the sources.  By the spec they "translate domain state into
    one or more calls to underlying primitive batchers' queue()" and "must
    not call flush()". *)
Definition manager_queue (c : QueueCall) : Method unit :=
  lift (emit (EvQueue c)) >>
  update_this (fun r =>
    set_batch (foldl (fun q p => batcher_queue p q) (batch r)
                 (queued c (frameCount r) (now r))) r).

(** Modelled from the spec: [flush] "submits the entire pending batch to
    the graphics context in one operation, then clears the pending batch",
    the commands "in queue order"; an empty batch submits nothing. *)
Definition batcher_flush (b : Batcher) : Method unit :=
  lift (emit (EvFlush b)) >>
  update_this (fun r =>
    set_batch (fun b' => if decide (b' = b) then [] else batch r b')
      (set_drawn (drawn (glManager r) ++ (DCmd b <$> batch r b)) r)).

Definition uiRenderManager_queueBorders := manager_queue QueueBorders.
Definition uiRenderManager_queueSelectedRangeRing := manager_queue QueueSelectedRangeRing.
Definition uiRenderManager_queueSelectedRect := manager_queue QueueSelectedRect.
Definition uiRenderManager_queueHoveringRect := manager_queue QueueHoveringRect.
Definition uiRenderManager_queueMousePath := manager_queue QueueMousePath.
Definition voyageRenderManager_queueVoyages := manager_queue QueueVoyages.
Definition wormholeRenderManager_queueWormholes := manager_queue QueueWormholes.
Definition planetRenderManager_queuePlanets (locations : Locations) (now : Z) :=
  manager_queue (QueuePlanets locations now).

Definition lineRenderer_flush := batcher_flush LineB.
Definition planetRenderManager_flush := batcher_flush PlanetB.
Definition circleRenderer_flush := batcher_flush CircleB.
Definition rectRenderer_flush := batcher_flush RectB.
Definition textRenderer_flush := batcher_flush TextB.
Definition spriteRenderer_flush := batcher_flush SpriteB.

(** Ghost: notes what the callees of this draw phase can read. *)
Definition ghost_frame_seen : Method unit :=
  fun a =>
    (tt, {| self := self a; this := this a;
            world := set_framesSeen
                       (framesSeen (world a)
                          ++ [{| seen_this := self a;
                                 seen_frameCount := frameCount (this a);
                                 seen_instance := instance (world a) |}])
                       (world a) |}).

(** *** [Renderer.draw] *)

Definition draw : Method unit :=
  ghost_frame_seen >>
  (* write matrix uniform *)
  glManager_setProjectionMatrix >>
  (* clear all *)
  overlay2dRenderer_clear >>
  glManager_clear >>
  (* get some data *)
  do '(locations, chunks) <- gameUIManager_getLocationsAndChunks;
  (* draw the bg *)
  bgRenderer_drawChunks chunks >>
  uiRenderManager_queueBorders >>
  uiRenderManager_queueSelectedRangeRing >>
  uiRenderManager_queueSelectedRect >>
  uiRenderManager_queueHoveringRect >>
  uiRenderManager_queueMousePath >>
  uiRenderManager_drawMiner >>
  (* queue voyages calls *)
  voyageRenderManager_queueVoyages >>
  (* queue wormhole calls *)
  wormholeRenderManager_queueWormholes >>
  (* queue planets *)
  do this_now <- get_this now;
  planetRenderManager_queuePlanets locations this_now >>
  (* flush all - ordering matters! (they get drawn bottom-up) *)
  lineRenderer_flush >>
  planetRenderManager_flush >>
  circleRenderer_flush >>
  rectRenderer_flush >>
  textRenderer_flush >>
  spriteRenderer_flush >>
  (* render all of the plugins *)
  do pm <- gameUIManager_getPluginManager;
  match pm with
  | Some p =>
      do c <- get_this (fun r => ctx (overlay2dRenderer r));
      pluginManager_drawAllRunningPlugins p c
  | None => ret tt
  end.

(** The same draw phase with the [queue*()] calls and the miner of lines
    164 to 178 issued in an order of the caller's choice: [draw] is
    [draw_in_order source_order]. *)
Inductive FrameStep : Type :=
| Queue (q : QueueCall)
| DrawMiner.

Definition run_step (s : FrameStep) : Method unit :=
  match s with
  | Queue q => manager_queue q
  | DrawMiner => uiRenderManager_drawMiner
  end.

Fixpoint run_steps (l : list FrameStep) : Method unit :=
  match l with
  | [] => ret tt
  | s :: l => run_step s >> run_steps l
  end.

Definition source_order (locations : Locations) (now : Z) : list FrameStep :=
  [ Queue QueueBorders; Queue QueueSelectedRangeRing; Queue QueueSelectedRect;
    Queue QueueHoveringRect; Queue QueueMousePath; DrawMiner;
    Queue QueueVoyages; Queue QueueWormholes;
    Queue (QueuePlanets locations now) ].

Definition flush_order : list Batcher :=
  [LineB; PlanetB; CircleB; RectB; TextB; SpriteB].

Definition draw_in_order (order : Locations -> Z -> list FrameStep) : Method unit :=
  ghost_frame_seen >>
  glManager_setProjectionMatrix >>
  overlay2dRenderer_clear >>
  glManager_clear >>
  do '(locations, chunks) <- gameUIManager_getLocationsAndChunks;
  bgRenderer_drawChunks chunks >>
  do this_now <- get_this now;
  run_steps (order locations this_now) >>
  lineRenderer_flush >>
  planetRenderManager_flush >>
  circleRenderer_flush >>
  rectRenderer_flush >>
  textRenderer_flush >>
  spriteRenderer_flush >>
  do pm <- gameUIManager_getPluginManager;
  match pm with
  | Some p =>
      do c <- get_this (fun r => ctx (overlay2dRenderer r));
      pluginManager_drawAllRunningPlugins p c
  | None => ret tt
  end.

(** *** [Renderer.loop] *)

Definition loop : Method unit :=
  update_this (fun r => set_frameCount (frameCount r + 1) r) >>
  do t <- lift Date_now_call;
  update_this (set_now t) >>
  draw >>
  do me <- get_self;
  do id <- lift (window_requestAnimationFrame me);
  update_this (set_frameRequestId (Some id)).

(** *** [Renderer.setup] *)

Definition setup : Method unit :=
  lift (new_component BackgroundRendererC) >>
  lift (new_component PlanetRendererC) >>
  lift (new_component AsteroidRendererC) >>
  lift (new_component BeltRendererC) >>
  lift (new_component MineRendererC) >>
  lift (new_component SpriteRendererC) >>
  lift (new_component QuasarRendererC) >>
  lift (new_component SpacetimeRipRendererC) >>
  lift (new_component RuinsRendererC) >>
  lift (new_component RingRendererC) >>
  lift (new_component BlackDomainRendererC) >>

  lift (new_component LineRendererC) >>
  lift (new_component CircleRendererC) >>
  lift (new_component RectRendererC) >>
  lift (new_component TextRendererC) >>

  lift (new_component VoyageRendererC) >>
  lift (new_component WormholeRendererC) >>
  lift (new_component PlanetRenderManagerC) >>
  lift (new_component UIRendererC) >>

  loop.

(** *** The constructor *)

(** The object as the constructor has it before it calls [setup]: the
    canvases, the two render engines, the state provider, the frame
    counter at zero and the time of construction.  ([autoBind(this)] binds
    the methods to [this] and leaves the fields alone.) *)
Definition new_fields (canvas glCanvas bufferCanvas : Canvas)
    (gameUIManager : GameUIManager) (t : Z) : Renderer :=
  {| canvas := canvas;
     glCanvas := glCanvas;
     bufferCanvas := bufferCanvas;
     frameRequestId := None;
     gameUIManager := gameUIManager;
     frameCount := 0;
     now := t;
     glManager := {| glSurface := glCanvas; drawn := [] |};
     overlay2dRenderer := {| ctx := Ctx2DOf canvas; overlayDrawn := [] |};
     batch := fun _ => [] |}.

Definition alloc (r : Renderer) : Static Ref :=
  fun w => (length (heap w), set_heap (heap w ++ [r]) w).

Definition new_Renderer (canvas glCanvas bufferCanvas : Canvas)
    (gameUIManager : GameUIManager) : Static Ref :=
  new_component GameGLManagerC >>
  new_component Overlay2DRendererC >>
  do t <- Date_now_call;
  do me <- alloc (new_fields canvas glCanvas bufferCanvas gameUIManager t);
  (* do async stuff here e.g.: loadTextures(() => this.setup()); *)
  invoke me setup >>
  ret me.

(** *** [Renderer.destroy] and [Renderer.initialize] *)

Definition destroy : Static unit :=
  (fun w =>
     match instance w with
     | Some i => window_cancelAnimationFrame (heap w !! i ≫= frameRequestId) w
     | None => (tt, w)
     end) >>
  (fun w => (tt, set_instance None w)).

Definition initialize (canvas glCanvas bufferCanvas : Canvas)
    (gameUIManager : GameUIManager) : Static Ref :=
  do canvasRenderer <- new_Renderer canvas glCanvas bufferCanvas gameUIManager;
  (fun w => (tt, set_instance (Some canvasRenderer) w)) >>
  ret canvasRenderer.

(** *** [Renderer.debug] *)

(** The remainder operator [%] on integers: [NaN] ([None]) when the
    divisor is zero, else the remainder of the truncated division, which
    has the sign of the dividend. *)
Definition js_rem (a b : Z) : option Z :=
  if (b =? 0)%Z then None else Some (Z.rem a b).

(** [debug(interval = 120)]: the argument is [None] when it is left out.
    [NaN === 0] is false. *)
Definition debug (interval : option Z) (r : Renderer) : bool :=
  let interval := default 120%Z interval in
  match js_rem (frameCount r) interval with
  | Some m => (m =? 0)%Z
  | None => false
  end.

(** *** The host *)

(** The display refreshes and the host runs the pending callback [id]:
    the request leaves the list, then the closure calls [this.loop()]. *)
Definition animationFrame (id : nat) : Static unit :=
  fun w =>
    match pending w !! id with
    | Some callback_this =>
        invoke callback_this loop (set_pending (delete id (pending w)) w)
    | None => (tt, w)
    end.

(** What can happen to the world: a caller initialises or destroys the
    renderer, or the host runs a pending frame callback. *)
Inductive Action : Type :=
| AInitialize (canvas glCanvas bufferCanvas : Canvas) (g : GameUIManager)
| ADestroy
| AFrame (id : nat).

Definition step (a : Action) (w : World) : World :=
  match a with
  | AInitialize c gl b g => exec (initialize c gl b g) w
  | ADestroy => exec destroy w
  | AFrame id => exec (animationFrame id) w
  end.

Definition run (l : list Action) (w : World) : World :=
  foldl (fun w a => step a w) w l.

(** The world when the script is loaded: no object, [Renderer.instance]
    not set, nothing scheduled. *)
Definition world0 : World :=
  {| heap := []; instance := None; pending := ∅; nextRequestId := 1;
     envPos := 0; trace := []; framesSeen := [] |}.

Inductive reachable : World -> Prop :=
| reachable_0 : reachable world0
| reachable_step a w : reachable w -> reachable (step a w).

End Renderer.

(** * The vocabulary of the properties *)

Section Vocabulary.

Context `{Collaborators}.

Definition step_event (s : FrameStep) : Event :=
  match s with
  | Queue q => EvQueue q
  | DrawMiner => EvDrawMiner
  end.

(** What a step pushes into the batchers in a frame with counter [fc] and
    timestamp [nw]. *)
Definition step_pushes (fc nw : Z) (s : FrameStep) : list (Batcher * Cmd) :=
  match s with
  | Queue q => queued q fc nw
  | DrawMiner => []
  end.

Definition frame_pushes (fc nw : Z) (l : list FrameStep) : list (Batcher * Cmd) :=
  flat_map (step_pushes fc nw) l.

(** The commands among [ps] that go to batcher [b], in the order of [ps]. *)
Fixpoint commands_for (b : Batcher) (ps : list (Batcher * Cmd)) : list Cmd :=
  match ps with
  | [] => []
  | p :: ps =>
      if decide (fst p = b) then snd p :: commands_for b ps
      else commands_for b ps
  end.

Definition step_overlay (s : FrameStep) : list OverlayDrawn :=
  match s with
  | Queue _ => []
  | DrawMiner => [OMiner]
  end.

Definition plugin_events (pm : option PluginManager) (c : Ctx2D) : list Event :=
  EvGetPluginManager ::
  match pm with
  | Some p => [EvDrawAllRunningPlugins p c]
  | None => []
  end.

Definition plugin_overlay (pm : option PluginManager) : list OverlayDrawn :=
  match pm with
  | Some p => [OPlugins p]
  | None => []
  end.

(** The calls of one draw phase of the object [r], when [n] oracle
    queries have been answered before it. *)
Definition frame_events (order : Locations -> Z -> list FrameStep)
    (r : Renderer) (n : nat) : list Event :=
  [EvSetProjectionMatrix; EvOverlayClear; EvGLClear; EvGetLocationsAndChunks;
   EvDrawChunks (snd (getLocationsAndChunks (gameUIManager r) n))]
  ++ (step_event <$> order (fst (getLocationsAndChunks (gameUIManager r) n)) (now r))
  ++ (EvFlush <$> flush_order)
  ++ plugin_events (getPluginManager (gameUIManager r) (S n))
       (ctx (overlay2dRenderer r)).

(** The layer that the flush of [b] puts on the WebGL surface. *)
Definition layer (r : Renderer) (ps : list (Batcher * Cmd)) (b : Batcher)
  : list Drawn :=
  DCmd b <$> (batch r b ++ commands_for b ps).

(** The fields that no method of [Renderer.ts] assigns after the
    constructor. *)
Definition same_wiring (r r' : Renderer) : Prop :=
  canvas r' = canvas r /\
  glCanvas r' = glCanvas r /\
  bufferCanvas r' = bufferCanvas r /\
  gameUIManager r' = gameUIManager r /\
  glSurface (glManager r') = glSurface (glManager r) /\
  ctx (overlay2dRenderer r') = ctx (overlay2dRenderer r).

(** The object at the moment [loop] calls [draw]. *)
Definition at_draw (r : Renderer) (t : Z) : Renderer :=
  set_now t (set_frameCount (frameCount r + 1) r).

(** The calls of one iteration of the loop of [r], when [n] oracle queries
    have been answered before it and [id] is the next request id. *)
Definition loop_events (r : Renderer) (n id : nat) : list Event :=
  [EvDateNow (Date_now n)]
  ++ frame_events source_order (at_draw r (Date_now n)) (S n)
  ++ [EvRequestAnimationFrame id].

(** What one iteration makes of the object [r] in the world [w]. *)
Definition loop_post (r : Renderer) (w : World) (r' : Renderer) : Prop :=
  same_wiring r r' /\
  frameCount r' = (frameCount r + 1)%Z /\
  now r' = Date_now (envPos w) /\
  frameRequestId r' = Some (nextRequestId w) /\
  (forall b, batch r' b = []).

(** The world after one iteration of the loop of the object at [ref],
    which held [r] before and holds [r'] after; [pre] are the calls made
    between the start of the method and the iteration. *)
Definition loop_world (ref : Ref) (r r' : Renderer) (pre : list Event)
    (w : World) : World :=
  {| heap := <[ref := r']> (heap w); instance := instance w;
     pending := <[nextRequestId w := ref]> (pending w);
     nextRequestId := S (nextRequestId w);
     envPos := S (S (S (envPos w)));
     trace := trace w ++ pre ++ loop_events r (envPos w) (nextRequestId w);
     framesSeen := framesSeen w
                   ++ [{| seen_this := ref;
                          seen_frameCount := (frameCount r + 1)%Z;
                          seen_instance := instance w |}] |}.

(** The sub-components that [setup] constructs, in the order of the
    source. *)
Definition setup_components : list Component :=
  [ BackgroundRendererC; PlanetRendererC; AsteroidRendererC; BeltRendererC;
    MineRendererC; SpriteRendererC; QuasarRendererC; SpacetimeRipRendererC;
    RuinsRendererC; RingRendererC; BlackDomainRendererC;
    LineRendererC; CircleRendererC; RectRendererC; TextRendererC;
    VoyageRendererC; WormholeRendererC; PlanetRenderManagerC; UIRendererC ].

(** The calls of the constructor before [setup]. *)
Definition constructor_events (t : Z) : list Event :=
  [EvNew GameGLManagerC; EvNew Overlay2DRendererC; EvDateNow t].

(** The world that [new Renderer(...)] leaves: the new object [r'] is at
    the end of the store, one iteration of its loop has run and the next
    one is scheduled. *)
Definition constructed_world (canvas glCanvas bufferCanvas : Canvas)
    (g : GameUIManager) (r' : Renderer) (w : World) : World :=
  let t := Date_now (envPos w) in
  {| heap := heap w ++ [r']; instance := instance w;
     pending := <[nextRequestId w := length (heap w)]> (pending w);
     nextRequestId := S (nextRequestId w);
     envPos := S (S (S (S (envPos w))));
     trace := trace w ++ constructor_events t
              ++ (EvNew <$> setup_components)
              ++ loop_events (new_fields canvas glCanvas bufferCanvas g t)
                   (S (envPos w)) (nextRequestId w);
     framesSeen := framesSeen w
                   ++ [{| seen_this := length (heap w); seen_frameCount := 1;
                          seen_instance := instance w |}] |}.

(** What holds of every world that [initialize], [destroy] and the frame
    callbacks of the host can reach. *)
Record wf (w : World) : Prop := {
  (** a pending callback belongs to an object of the store, and its id is
      the one that object holds: an object has at most one *)
  wf_pending : forall id ref, pending w !! id = Some ref ->
    exists r, heap w !! ref = Some r /\ frameRequestId r = Some id;
  (** the ids that the objects hold have been handed out *)
  wf_ids : forall ref r id, heap w !! ref = Some r ->
    frameRequestId r = Some id -> id < nextRequestId w;
  (** every object has run an iteration *)
  wf_frames : forall ref r, heap w !! ref = Some r ->
    (1 <= frameCount r)%Z /\ is_Some (frameRequestId r);
  (** the singleton is an object of the store *)
  wf_instance : forall i, instance w = Some i -> is_Some (heap w !! i);
  (** the next iteration of the singleton is scheduled *)
  wf_active : forall i r id, instance w = Some i -> heap w !! i = Some r ->
    frameRequestId r = Some id -> pending w !! id = Some i;
  (** no draw phase has seen the frame counter below one *)
  wf_seen : Forall (fun s => (1 <= seen_frameCount s)%Z) (framesSeen w)
}.

Definition batcher_rank (b : Batcher) : nat :=
  match b with
  | LineB => 1 | PlanetB => 2 | CircleB => 3
  | RectB => 4 | TextB => 5 | SpriteB => 6
  end.

(** The height of what is drawn on the WebGL surface: the background
    below everything, then the batches by the position of their flush. *)
Definition stacking_rank (d : Drawn) : nat :=
  match d with
  | DChunk _ => 0
  | DCmd b _ => batcher_rank b
  end.

Definition below (x y : Drawn) : Prop := stacking_rank x <= stacking_rank y.

Definition is_flush (e : Event) : bool :=
  match e with EvFlush _ => true | _ => false end.

Definition is_queue (e : Event) : bool :=
  match e with EvQueue _ => true | _ => false end.

Definition is_plugin_draw (e : Event) : bool :=
  match e with EvDrawAllRunningPlugins _ _ => true | _ => false end.

Definition unscheduled (i : Ref) (w : World) : Prop :=
  forall k, pending w !! k <> Some i.

(** The order that claim C3 states: the singleton is installed, then the
    loop starts.  In that order every draw phase of the new object [ref]
    sees [Renderer.instance] hold [ref]. *)
Definition installed_before_loop (ref : Ref) (w : World) : Prop :=
  Forall (fun s => seen_this s = ref -> seen_instance s = Some ref)
    (framesSeen w).

(** What claim C6 states of the world after [destroy()] and
    [initialize()]: the frame counter of the singleton is 0. *)
Definition singleton_frame_counter_zero (w : World) : Prop :=
  exists i r, instance w = Some i /\ heap w !! i = Some r /\ frameCount r = 0%Z.

(** The frame counters that the draw phases of the object [ref] have
    seen, oldest first. *)
Definition frames_seen_by (ref : Ref) (w : World) : list Z :=
  seen_frameCount <$> filter (fun s => seen_this s = ref) (framesSeen w).

(** The request that the loop of the singleton has scheduled. *)
Definition singleton_request (w : World) : option nat :=
  i ← instance w; r ← heap w !! i; frameRequestId r.

(** The display refreshes and the host runs the callback of the
    singleton. *)
Definition singleton_frame (w : World) : World :=
  match singleton_request w with
  | Some id => step (AFrame id) w
  | None => w
  end.

(** The worlds of a caller who never calls [initialize] while an instance
    is active. *)
Inductive disciplined : World -> Prop :=
| disciplined_0 : disciplined world0
| disciplined_initialize canvas glCanvas bufferCanvas g w :
    disciplined w -> instance w = None ->
    disciplined (step (AInitialize canvas glCanvas bufferCanvas g) w)
| disciplined_destroy w :
    disciplined w -> disciplined (step ADestroy w)
| disciplined_frame id w :
    disciplined w -> disciplined (step (AFrame id) w).

(** An object whose loop is scheduled and that is not the singleton:
    [destroy] cannot reach it. *)
Definition orphaned (ref : Ref) (w : World) : Prop :=
  (exists id, pending w !! id = Some ref) /\ instance w <> Some ref.

(** The [queuePlanets] calls among [calls] all carry the timestamp [t]. *)
Definition planets_queued_at (t : Z) (calls : list Event) : Prop :=
  Forall (fun e => forall locations t',
            e = EvQueue (QueuePlanets locations t') -> t' = t) calls.

Definition is_clock_read (e : Event) : bool :=
  match e with EvDateNow _ => true | _ => false end.

(** The frames an object has seen are 1, 2, ... up to its frame counter;
    a reference beyond the store has seen none. *)
Definition counter_counts_draws (w : World) : Prop :=
  forall ref,
    match heap w !! ref with
    | Some r =>
        (0 <= frameCount r)%Z
        /\ frames_seen_by ref w = Z.of_nat <$> seq 1 (Z.to_nat (frameCount r))
    | None => frames_seen_by ref w = []
    end.

End Vocabulary.

(** * Concrete inputs *)

(** A clock that advances by 16 ms at each reading, and managers that
    queue a few commands into several batchers each. *)
#[global] Instance demo_collaborators : Collaborators := {|
  Date_now := fun n => (1000 + 16 * Z.of_nat n)%Z;
  queued := fun q fc nw =>
    match q with
    | QueueBorders => [(LineB, 1); (CircleB, 2)]
    | QueueSelectedRangeRing => [(CircleB, 3)]
    | QueueSelectedRect => [(RectB, 4)]
    | QueueHoveringRect => [(RectB, 5)]
    | QueueMousePath => [(LineB, 6); (TextB, 7)]
    | QueueVoyages => [(CircleB, 8); (LineB, 9); (TextB, 10); (SpriteB, 11)]
    | QueueWormholes => [(LineB, 12)]
    | QueuePlanets locations _ =>
        flat_map (fun l => [(PlanetB, l); (TextB, l); (SpriteB, l)]) locations
    end
|}.

(** A state provider with two visible locations, one chunk and a plugin
    manager, and one without plugin manager. *)
Definition demo_gameUIManager : GameUIManager :=
  {| getLocationsAndChunks := fun _ => ([20; 21], [30]);
     getPluginManager := fun _ => Some 5 |}.

Definition demo_gameUIManager_no_plugins : GameUIManager :=
  {| getLocationsAndChunks := fun _ => ([20; 21], [30]);
     getPluginManager := fun _ => None |}.

(** The world after a first [Renderer.initialize] on the canvases 0, 1
    and 2. *)
Definition demo_world : World :=
  step (AInitialize 0 1 2 demo_gameUIManager) world0.

(** The activation of a method on a freshly constructed object. *)
Definition demo_activation : Activation :=
  {| self := 0;
     this := new_fields 0 1 2 demo_gameUIManager 1000;
     world := world0 |}.

Definition demo_activation_no_plugins : Activation :=
  {| self := 0;
     this := new_fields 0 1 2 demo_gameUIManager_no_plugins 1000;
     world := world0 |}.

(** The queue calls of the source, issued last first. *)
Definition reverse_order (locations : Locations) (now : Z) : list FrameStep :=
  reverse (source_order locations now).

(** The object of [demo_world] after two further frames. *)
Definition demo_world_three_frames : World :=
  run [AFrame 1; AFrame 2] demo_world.

(** A second [initialize] without [destroy]: the object 0 is orphaned. *)
Definition demo_world_reinitialized : World :=
  step (AInitialize 3 4 5 demo_gameUIManager) demo_world.

(** [destroy] and a new [initialize] after the first one. *)
Definition demo_world_restarted : World :=
  step (AInitialize 3 4 5 demo_gameUIManager) (step ADestroy demo_world).

(** * Proof tools *)

(** Runs the code of the methods on records given by their fields: unfolds
    the monad, the calls and the field updates, and nothing of the
    libraries. *)
Declare Reduction run_methods :=
  cbv [bind ret exec eval lift emit
       get_this get_self update_this
       ghost_frame_seen glManager_setProjectionMatrix overlay2dRenderer_clear
       glManager_clear gameUIManager_getLocationsAndChunks
       gameUIManager_getPluginManager bgRenderer_drawChunks
       uiRenderManager_drawMiner pluginManager_drawAllRunningPlugins
       manager_queue batcher_flush
       uiRenderManager_queueBorders uiRenderManager_queueSelectedRangeRing
       uiRenderManager_queueSelectedRect uiRenderManager_queueHoveringRect
       uiRenderManager_queueMousePath voyageRenderManager_queueVoyages
       wormholeRenderManager_queueWormholes planetRenderManager_queuePlanets
       lineRenderer_flush planetRenderManager_flush circleRenderer_flush
       rectRenderer_flush textRenderer_flush spriteRenderer_flush
       source_order run_step new_component Date_now_call
       window_requestAnimationFrame window_cancelAnimationFrame
       set_heap set_instance set_pending set_nextRequestId set_envPos
       set_trace set_framesSeen set_frameRequestId set_frameCount set_now
       set_drawn set_overlayDrawn set_batch
       heap instance pending nextRequestId envPos trace framesSeen
       self this world canvas glCanvas bufferCanvas frameRequestId
       gameUIManager frameCount now glManager overlay2dRenderer batch
       glSurface drawn ctx overlayDrawn fst snd].

Ltac run_code :=
  match goal with
  | |- ?G => let G' := eval run_methods in G in change G'
  end.

Ltac run_code_in H :=
  let T := type of H in
  let T' := eval run_methods in T in
  change T' in H.

(** Unfolds the field updates and projects the records that are given by
    their fields. *)
Ltac simplify_fields :=
  unfold set_heap, set_instance, set_pending, set_nextRequestId, set_envPos,
    set_trace, set_framesSeen, set_frameRequestId, set_frameCount, set_now,
    set_drawn, set_overlayDrawn, set_batch in *;
  cbn [heap instance pending nextRequestId envPos trace framesSeen
       self this world canvas glCanvas bufferCanvas frameRequestId
       gameUIManager frameCount now glManager overlay2dRenderer batch
       glSurface drawn ctx overlayDrawn fst snd] in *.

(** Names the fields of an activation. *)
Ltac open_activation a :=
  let sf := fresh "sf" in
  let r := fresh "r" in
  let w := fresh "w" in
  destruct a as [sf r w];
  destruct w as [? ? ? ? ? ? ?];
  destruct r as [? ? ? ? ? ? ? [? ?] [? ?] ?].

(** * Properties *)

Section Properties.

Context `{Collaborators}.

(** A method without a result is known by the state it leaves. *)
Lemma unit_method {S : Type} (m : State S unit) (s : S) : m s = (tt, exec m s).
Proof. unfold exec. destruct (m s) as [[] s']. reflexivity. Qed.

(** ** The draw phase in closed form *)

Lemma commands_for_app b ps qs :
  commands_for b (ps ++ qs) = commands_for b ps ++ commands_for b qs.
Proof.
  induction ps as [|p ps IH]; cbn; [reflexivity|].
  destruct (decide (p.1 = b)); cbn; rewrite IH; reflexivity.
Qed.

Lemma batcher_queue_all ps : forall q b,
  foldl (fun q p => batcher_queue p q) q ps b = q b ++ commands_for b ps.
Proof.
  induction ps as [|p ps IH]; intros q b; cbn.
  - rewrite app_nil_r. reflexivity.
  - rewrite IH. unfold batcher_queue.
    destruct (decide (b = p.1)) as [->|Hne].
    + rewrite decide_True by reflexivity. rewrite <- app_assoc. reflexivity.
    + rewrite decide_False by congruence. reflexivity.
Qed.

(** The steps leave everything alone but the trace, the pending batches
    and the overlay. *)
Lemma run_steps_exec l : forall a,
  let a' := exec (run_steps l) a in
  self a' = self a /\
  world a' = set_trace (trace (world a) ++ (step_event <$> l)) (world a) /\
  canvas (this a') = canvas (this a) /\
  glCanvas (this a') = glCanvas (this a) /\
  bufferCanvas (this a') = bufferCanvas (this a) /\
  frameRequestId (this a') = frameRequestId (this a) /\
  gameUIManager (this a') = gameUIManager (this a) /\
  frameCount (this a') = frameCount (this a) /\
  now (this a') = now (this a) /\
  glManager (this a') = glManager (this a) /\
  ctx (overlay2dRenderer (this a')) = ctx (overlay2dRenderer (this a)) /\
  overlayDrawn (overlay2dRenderer (this a')) =
    overlayDrawn (overlay2dRenderer (this a)) ++ flat_map step_overlay l /\
  (forall b, batch (this a') b =
     batch (this a) b
       ++ commands_for b (frame_pushes (frameCount (this a)) (now (this a)) l)).
Proof.
  induction l as [|s l IH]; intros a; cbn zeta.
  - open_activation a. cbn [run_steps flat_map fmap list_fmap frame_pushes].
    run_code. rewrite !app_nil_r. repeat split; try reflexivity.
    intros b. cbn. rewrite app_nil_r. reflexivity.
  - cbn [run_steps]. unfold exec, bind.
    destruct (run_step s a) as [u a1] eqn:E1.
    assert (Ha1 : a1 = exec (run_step s) a) by (unfold exec; rewrite E1; reflexivity).
    clear E1. specialize (IH a1). cbn zeta in IH. unfold exec in IH.
    destruct (run_steps l a1) as [u' a2]. cbn [snd] in IH |- *.
    destruct IH as (-> & -> & -> & -> & -> & -> & -> & -> & -> & -> & -> & -> & Hb).
    subst a1. open_activation a.
    destruct s as [q|]; run_code;
      cbn [flat_map fmap list_fmap step_event step_overlay frame_pushes
           step_pushes app];
      rewrite <- ?app_assoc; repeat split; try reflexivity;
      intros b; rewrite Hb; run_code.
    + rewrite batcher_queue_all, commands_for_app, <- app_assoc. reflexivity.
    + reflexivity.
Qed.

Lemma draw_in_order_exec order (a : Activation) :
  let a' := exec (draw_in_order order) a in
  let r := this a in
  let w := world a in
  let snapshot := getLocationsAndChunks (gameUIManager r) (envPos w) in
  let steps := order (fst snapshot) (now r) in
  let ps := frame_pushes (frameCount r) (now r) steps in
  let pm := getPluginManager (gameUIManager r) (S (envPos w)) in
  self a' = self a /\
  world a' =
    {| heap := heap w; instance := instance w; pending := pending w;
       nextRequestId := nextRequestId w; envPos := S (S (envPos w));
       trace := trace w ++ frame_events order r (envPos w);
       framesSeen := framesSeen w
                     ++ [{| seen_this := self a; seen_frameCount := frameCount r;
                            seen_instance := instance w |}] |} /\
  canvas (this a') = canvas r /\
  glCanvas (this a') = glCanvas r /\
  bufferCanvas (this a') = bufferCanvas r /\
  frameRequestId (this a') = frameRequestId r /\
  gameUIManager (this a') = gameUIManager r /\
  frameCount (this a') = frameCount r /\
  now (this a') = now r /\
  glSurface (glManager (this a')) = glSurface (glManager r) /\
  ctx (overlay2dRenderer (this a')) = ctx (overlay2dRenderer r) /\
  drawn (glManager (this a')) =
    (DChunk <$> snd snapshot) ++ flat_map (layer r ps) flush_order /\
  overlayDrawn (overlay2dRenderer (this a')) =
    flat_map step_overlay steps ++ plugin_overlay pm /\
  (forall b, batch (this a') b = []).
Proof.
  cbn zeta. open_activation a. unfold frame_events, layer, draw_in_order.
  run_code.
  destruct (getLocationsAndChunks _ _) as [locations chunks]. run_code.
  match goal with
  | |- context [run_steps ?l ?a0] =>
      rewrite (unit_method (run_steps l) a0);
      pose proof (run_steps_exec l a0) as Hs; cbn zeta in Hs;
      generalize dependent (exec (run_steps l) a0)
  end.
  intros [sf1 [cv1 glcv1 bcv1 frid1 g1 fc1 nw1 glm1 [cx1 odrw1] bt1] w1] Hs.
  run_code_in Hs.
  destruct Hs as (-> & -> & -> & -> & -> & -> & -> & -> & -> & -> & -> & -> & Hb).
  run_code.
  destruct (getPluginManager _ (S _)) as [p|]; run_code;
    rewrite !Hb, <- ?app_assoc, ?app_nil_r;
    cbn [flat_map flush_order plugin_events plugin_overlay fmap list_fmap app];
    rewrite <- ?app_assoc, ?app_nil_r;
    repeat split; try reflexivity;
    intros b; destruct b; reflexivity.
Qed.

Lemma draw_is_source_order (a : Activation) :
  draw a = draw_in_order source_order a.
Proof.
  open_activation a. unfold draw, draw_in_order. run_code.
  destruct (getLocationsAndChunks _ _) as [locations chunks].
  cbn [run_steps]. run_code. reflexivity.
Qed.

Lemma exec_draw_is_source_order (a : Activation) :
  exec draw a = exec (draw_in_order source_order) a.
Proof. unfold exec. rewrite (draw_is_source_order a). reflexivity. Qed.

(** ** The loop in closed form *)

Lemma loop_exec (a : Activation) :
  let a' := exec loop a in
  let r := this a in
  let w := world a in
  let t := Date_now (envPos w) in
  self a' = self a /\
  world a' =
    {| heap := heap w; instance := instance w;
       pending := <[nextRequestId w := self a]> (pending w);
       nextRequestId := S (nextRequestId w);
       envPos := S (S (S (envPos w)));
       trace := trace w ++ loop_events r (envPos w) (nextRequestId w);
       framesSeen := framesSeen w
                     ++ [{| seen_this := self a;
                            seen_frameCount := (frameCount r + 1)%Z;
                            seen_instance := instance w |}] |} /\
  same_wiring r (this a') /\
  frameCount (this a') = (frameCount r + 1)%Z /\
  now (this a') = t /\
  frameRequestId (this a') = Some (nextRequestId w) /\
  (forall b, batch (this a') b = []) /\
  drawn (glManager (this a')) =
    (let snapshot := getLocationsAndChunks (gameUIManager r) (S (envPos w)) in
     (DChunk <$> snd snapshot)
     ++ flat_map
          (layer r (frame_pushes (frameCount r + 1) t (source_order (fst snapshot) t)))
          flush_order).
Proof.
  cbn zeta. open_activation a. unfold loop, loop_events, at_draw, same_wiring.
  run_code.
  match goal with
  | |- context [draw ?a0] =>
      rewrite (unit_method draw a0);
      pose proof (draw_in_order_exec source_order a0) as Hd; cbn zeta in Hd;
      rewrite <- (exec_draw_is_source_order a0) in Hd;
      generalize dependent (exec draw a0)
  end.
  intros [sf1 [cv1 glcv1 bcv1 frid1 g1 fc1 nw1 [gls1 drw1] [cx1 odrw1] bt1] w1] Hd.
  unfold layer in Hd. run_code_in Hd.
  destruct Hd as (-> & -> & -> & -> & -> & -> & -> & -> & -> & -> & -> & -> & _ & Hb).
  run_code. unfold layer. run_code. rewrite <- !app_assoc. cbn [app].
  repeat split; try reflexivity. exact Hb.
Qed.

Lemma invoke_loop ref r w :
  heap w !! ref = Some r ->
  exists r', exec (invoke ref loop) w = loop_world ref r r' [] w
             /\ loop_post r w r'.
Proof.
  intros Hr. unfold exec at 1, invoke. rewrite Hr.
  pose proof (loop_exec {| self := ref; this := r; world := w |}) as Hl.
  cbn zeta in Hl. destruct (exec loop _) as [sf1 r1 w1].
  cbn [self this world snd] in Hl |- *.
  destruct Hl as (-> & -> & Hw & Hfc & Hnow & Hid & Hb & _).
  exists r1. split; [reflexivity|]. repeat split; try assumption; apply Hw.
Qed.

Lemma invoke_setup ref r w :
  heap w !! ref = Some r ->
  exists r', exec (invoke ref setup) w
               = loop_world ref r r' (EvNew <$> setup_components) w
             /\ loop_post r w r'.
Proof.
  intros Hr. unfold exec at 1, invoke. rewrite Hr.
  destruct w as [hp inst pend nrid n tr seen]. unfold setup. run_code.
  match goal with
  | |- context [loop ?a0] =>
      rewrite (unit_method loop a0);
      pose proof (loop_exec a0) as Hl; cbn zeta in Hl;
      generalize dependent (exec loop a0)
  end.
  intros [sf1 r1 w1] Hl.
  run_code_in Hl. destruct Hl as (-> & -> & Hw & Hfc & Hnow & Hid & Hb & _).
  run_code.
  exists r1. split; [|repeat split; try assumption; apply Hw].
  unfold loop_world. run_code. rewrite <- !app_assoc. reflexivity.
Qed.

Lemma new_Renderer_exec canvas glCanvas bufferCanvas g w :
  let t := Date_now (envPos w) in
  exists r',
    new_Renderer canvas glCanvas bufferCanvas g w
      = (length (heap w), constructed_world canvas glCanvas bufferCanvas g r' w)
    /\ loop_post (new_fields canvas glCanvas bufferCanvas g t)
         (set_envPos (S (envPos w)) w) r'.
Proof.
  cbn zeta. unfold new_Renderer, alloc.
  destruct w as [hp inst pend nrid n tr seen]. run_code.
  match goal with
  | |- context [invoke ?ref setup ?w0] =>
      destruct (invoke_setup ref
                  (new_fields canvas glCanvas bufferCanvas g (Date_now n)) w0)
        as (r' & Hw & Hp);
      [ run_code; apply list_lookup_middle; reflexivity | ];
      unfold exec in Hw; destruct (invoke ref setup w0) as [u w1]
  end.
  cbn [snd] in Hw. subst w1. exists r'. split; [|exact Hp].
  unfold loop_world, constructed_world, constructor_events. run_code.
  rewrite <- !app_assoc. cbn [app].
  rewrite insert_app_r_alt by lia. rewrite Nat.sub_diag. reflexivity.
Qed.

Lemma initialize_exec canvas glCanvas bufferCanvas g w :
  exists r',
    initialize canvas glCanvas bufferCanvas g w
      = (length (heap w),
         set_instance (Some (length (heap w)))
           (constructed_world canvas glCanvas bufferCanvas g r' w))
    /\ loop_post (new_fields canvas glCanvas bufferCanvas g (Date_now (envPos w)))
         (set_envPos (S (envPos w)) w) r'.
Proof.
  destruct (new_Renderer_exec canvas glCanvas bufferCanvas g w) as (r' & Hn & Hp).
  exists r'. split; [|exact Hp].
  unfold initialize, bind. rewrite Hn. reflexivity.
Qed.

Lemma initialize_eval_exec canvas glCanvas bufferCanvas g w :
  exists r',
    eval (initialize canvas glCanvas bufferCanvas g) w = length (heap w)
    /\ exec (initialize canvas glCanvas bufferCanvas g) w
       = set_instance (Some (length (heap w)))
           (constructed_world canvas glCanvas bufferCanvas g r' w)
    /\ loop_post (new_fields canvas glCanvas bufferCanvas g (Date_now (envPos w)))
         (set_envPos (S (envPos w)) w) r'.
Proof.
  destruct (initialize_exec canvas glCanvas bufferCanvas g w) as (r' & He & Hp).
  exists r'. unfold eval, exec. rewrite He. auto.
Qed.

Lemma animationFrame_exec id ref r w :
  pending w !! id = Some ref ->
  heap w !! ref = Some r ->
  exists r',
    exec (animationFrame id) w
      = loop_world ref r r' [] (set_pending (delete id (pending w)) w)
    /\ loop_post r w r'.
Proof.
  intros Hid Hr. unfold exec, animationFrame. rewrite Hid.
  destruct (invoke_loop ref r (set_pending (delete id (pending w)) w) Hr)
    as (r' & Hw & Hp).
  exists r'. split; [exact Hw | exact Hp].
Qed.

Lemma animationFrame_not_pending id w :
  pending w !! id = None -> exec (animationFrame id) w = w.
Proof. intros Hid. unfold exec, animationFrame. rewrite Hid. reflexivity. Qed.

(** ** The invariant of the reachable worlds *)

Lemma wf_world0 : wf world0.
Proof.
  split; cbn.
  - intros id ref Hl. rewrite lookup_empty in Hl. discriminate.
  - intros ref r id Hr. rewrite lookup_nil in Hr. discriminate.
  - intros ref r Hr. rewrite lookup_nil in Hr. discriminate.
  - intros i Hi. discriminate.
  - intros i r id Hi. discriminate.
  - constructor.
Qed.

Lemma wf_initialize canvas glCanvas bufferCanvas g w :
  wf w -> wf (exec (initialize canvas glCanvas bufferCanvas g) w).
Proof.
  intros [Hp Hi Hf Hs Ha Hg].
  destruct (initialize_exec canvas glCanvas bufferCanvas g w)
    as (r' & He & (_ & Hfc & _ & Hid & _)).
  unfold exec. rewrite He. cbn [snd]. clear He.
  unfold constructed_world, new_fields in *. simplify_fields.
  split; simplify_fields.
  - intros id ref Hl. destruct (decide (id = nextRequestId w)) as [->|Hne].
    + rewrite lookup_insert_eq in Hl. injection Hl as <-.
      exists r'. split; [apply list_lookup_middle; reflexivity | exact Hid].
    + rewrite lookup_insert_ne in Hl by congruence.
      destruct (Hp _ _ Hl) as (r & Hr & Hrid). exists r. split; [|exact Hrid].
      rewrite lookup_app_l; [exact Hr | eapply lookup_lt_Some; exact Hr].
  - intros ref r id Hr Hrid. apply lookup_app_Some in Hr as [Hr|[_ Hr]].
    + specialize (Hi _ _ _ Hr Hrid). lia.
    + apply list_lookup_singleton_Some in Hr as [_ <-].
      rewrite Hid in Hrid. injection Hrid as <-. lia.
  - intros ref r Hr. apply lookup_app_Some in Hr as [Hr|[_ Hr]].
    + exact (Hf _ _ Hr).
    + apply list_lookup_singleton_Some in Hr as [_ <-].
      rewrite Hfc, Hid. split; [lia | eexists; reflexivity].
  - intros i [= <-]. exists r'. apply list_lookup_middle. reflexivity.
  - intros i r id [= <-] Hr Hrid.
    rewrite list_lookup_middle in Hr by reflexivity. injection Hr as <-.
    rewrite Hid in Hrid. injection Hrid as <-. apply lookup_insert_eq.
  - apply Forall_app. split; [exact Hg|]. repeat constructor. cbn. lia.
Qed.

Lemma destroy_exec w :
  exec destroy w =
    set_instance None
      match instance w with
      | Some i =>
          set_pending
            match heap w !! i ≫= frameRequestId with
            | Some k => delete k (pending w)
            | None => pending w
            end
            (set_trace
               (trace w ++ [EvCancelAnimationFrame (heap w !! i ≫= frameRequestId)])
               w)
      | None => w
      end.
Proof.
  unfold exec, destroy, bind, window_cancelAnimationFrame.
  destruct (instance w); reflexivity.
Qed.

Lemma wf_destroy w : wf w -> wf (exec destroy w).
Proof.
  intros [Hp Hi Hf Hs Ha Hg]. rewrite destroy_exec.
  destruct (instance w) as [i|]; [|split; simplify_fields; try assumption; discriminate].
  split; simplify_fields; try assumption; try discriminate.
  intros id ref Hl. apply Hp.
  destruct (heap w !! i ≫= frameRequestId) as [k|]; [|exact Hl].
  apply lookup_delete_Some in Hl as [_ Hl]. exact Hl.
Qed.

Lemma wf_animationFrame id w : wf w -> wf (exec (animationFrame id) w).
Proof.
  intros Hw. destruct (pending w !! id) as [ref|] eqn:Hid;
    [|rewrite animationFrame_not_pending by exact Hid; exact Hw].
  destruct Hw as [Hp Hi Hf Hs Ha Hg].
  destruct (Hp _ _ Hid) as (r & Hr & Hrid).
  destruct (animationFrame_exec id ref r w Hid Hr)
    as (r' & He & (_ & Hfc & _ & Hid' & _)).
  rewrite He. clear He. unfold loop_world. simplify_fields.
  assert (Hlt : ref < length (heap w)) by (eapply lookup_lt_Some; exact Hr).
  split; simplify_fields.
  - intros id' ref' Hl. destruct (decide (id' = nextRequestId w)) as [->|Hne].
    + rewrite lookup_insert_eq in Hl. injection Hl as <-.
      exists r'. split; [apply list_lookup_insert_eq; exact Hlt | exact Hid'].
    + rewrite lookup_insert_ne in Hl by congruence.
      apply lookup_delete_Some in Hl as [Hne' Hl].
      destruct (Hp _ _ Hl) as (r2 & Hr2 & Hrid2).
      destruct (decide (ref' = ref)) as [->|Hner].
      * rewrite Hr in Hr2. injection Hr2 as <-. congruence.
      * exists r2. split; [|exact Hrid2].
        rewrite list_lookup_insert_ne by congruence. exact Hr2.
  - intros ref' r2 id' Hr2 Hrid2.
    destruct (decide (ref' = ref)) as [->|Hner].
    + rewrite list_lookup_insert_eq in Hr2 by exact Hlt. injection Hr2 as <-.
      rewrite Hid' in Hrid2. injection Hrid2 as <-. lia.
    + rewrite list_lookup_insert_ne in Hr2 by congruence.
      specialize (Hi _ _ _ Hr2 Hrid2). lia.
  - intros ref' r2 Hr2.
    destruct (decide (ref' = ref)) as [->|Hner].
    + rewrite list_lookup_insert_eq in Hr2 by exact Hlt. injection Hr2 as <-.
      rewrite Hfc, Hid'. destruct (Hf _ _ Hr) as [Hge _].
      split; [lia | eexists; reflexivity].
    + rewrite list_lookup_insert_ne in Hr2 by congruence. exact (Hf _ _ Hr2).
  - intros i Hinst. destruct (Hs _ Hinst) as [ri Hri].
    apply lookup_lt_is_Some. rewrite length_insert.
    eapply lookup_lt_Some; exact Hri.
  - intros i r2 id' Hinst Hr2 Hrid2.
    destruct (decide (i = ref)) as [->|Hner].
    + rewrite list_lookup_insert_eq in Hr2 by exact Hlt. injection Hr2 as <-.
      rewrite Hid' in Hrid2. injection Hrid2 as <-. apply lookup_insert_eq.
    + rewrite list_lookup_insert_ne in Hr2 by congruence.
      pose proof (Ha _ _ _ Hinst Hr2 Hrid2) as Hpi.
      pose proof (Hi _ _ _ Hr2 Hrid2) as Hlt'.
      rewrite lookup_insert_ne by lia.
      rewrite lookup_delete_ne; [exact Hpi|].
      intros ->. rewrite Hid in Hpi. congruence.
  - apply Forall_app. split; [exact Hg|]. repeat constructor. cbn.
    destruct (Hf _ _ Hr) as [Hge _]. lia.
Qed.

Lemma wf_step a w : wf w -> wf (step a w).
Proof.
  destruct a; cbn [step].
  - apply wf_initialize.
  - apply wf_destroy.
  - apply wf_animationFrame.
Qed.

Lemma reachable_wf w : reachable w -> wf w.
Proof.
  induction 1 as [|a w _ IH]; [apply wf_world0 | apply wf_step; exact IH].
Qed.

Lemma reachable_run l : forall w, reachable w -> reachable (run l w).
Proof.
  induction l as [|a l IH]; intros w Hw; cbn; [exact Hw|].
  apply IH. constructor. exact Hw.
Qed.

(** ** Stacking *)

Lemma commands_for_Permutation b ps qs :
  ps ≡ₚ qs -> commands_for b ps ≡ₚ commands_for b qs.
Proof.
  induction 1 as [|p ps qs _ IH|p q ps|ps qs rs _ IH1 _ IH2]; cbn.
  - reflexivity.
  - destruct (decide (p.1 = b)); [constructor|]; exact IH.
  - destruct (decide (p.1 = b)), (decide (q.1 = b)); try reflexivity.
    apply perm_swap.
  - etransitivity; eassumption.
Qed.

Lemma layer_Permutation r b ps qs :
  ps ≡ₚ qs -> layer r ps b ≡ₚ layer r qs b.
Proof.
  intros Hp. unfold layer. apply fmap_Permutation.
  apply Permutation_app_head, commands_for_Permutation, Hp.
Qed.

Lemma layer_rank r ps b :
  Forall (fun d => stacking_rank d = batcher_rank b) (layer r ps b).
Proof. unfold layer. apply Forall_fmap, Forall_true. reflexivity. Qed.

Lemma fmap_constant_length {A B} (f : A -> B) (c : B) (l l' : list A) :
  Forall (fun x => f x = c) l -> Forall (fun x => f x = c) l' ->
  length l = length l' -> f <$> l = f <$> l'.
Proof.
  intros Hl. revert l'. induction Hl as [|x l Hx _ IH]; intros l' Hl' Hlen.
  - destruct l'; [reflexivity | discriminate].
  - destruct Hl' as [|y l' Hy Hl']; [discriminate|].
    cbn. rewrite Hx, Hy. f_equal. apply IH; [exact Hl' | cbn in Hlen; lia].
Qed.

(** A block of one height under a sorted list of greater height. *)
Lemma below_block k l rest :
  Forall (fun d => stacking_rank d = k) l ->
  Forall (fun d => k <= stacking_rank d) rest ->
  StronglySorted below rest ->
  StronglySorted below (l ++ rest)
  /\ Forall (fun d => k <= stacking_rank d) (l ++ rest).
Proof.
  intros Hl Hrest Hs. split.
  - apply StronglySorted_app_2; [| |exact Hs].
    + intros x y Hx Hy. rewrite Forall_forall in Hl, Hrest.
      specialize (Hl _ Hx). specialize (Hrest _ Hy). unfold below. cbn beta in *. lia.
    + induction Hl as [|x l Hx Hl IH]; constructor; [exact IH|].
      eapply Forall_impl; [exact Hl|]. intros y Hy. unfold below.
      cbn beta in Hy. lia.
  - apply Forall_app. split; [|exact Hrest].
    eapply Forall_impl; [exact Hl|]. intros x Hx. cbn beta in Hx. lia.
Qed.

Lemma stack_layer r ps b k rest :
  batcher_rank b <= k ->
  Forall (fun d => k <= stacking_rank d) rest ->
  StronglySorted below rest ->
  StronglySorted below (layer r ps b ++ rest)
  /\ Forall (fun d => batcher_rank b <= stacking_rank d) (layer r ps b ++ rest).
Proof.
  intros Hk Hrest Hs. apply below_block; [apply layer_rank| |exact Hs].
  eapply Forall_impl; [exact Hrest|]. cbn beta. intros d Hd. lia.
Qed.

Lemma layers_sorted r ps (chunks : Chunks) :
  StronglySorted below ((DChunk <$> chunks) ++ flat_map (layer r ps) flush_order).
Proof.
  cbn [flat_map flush_order].
  destruct (stack_layer r ps SpriteB 6 []) as [S6 F6];
    [cbn; lia | constructor | constructor |].
  destruct (stack_layer r ps TextB 6 _ ltac:(cbn; lia) F6 S6) as [S5 F5].
  destruct (stack_layer r ps RectB 5 _ ltac:(cbn; lia) F5 S5) as [S4 F4].
  destruct (stack_layer r ps CircleB 4 _ ltac:(cbn; lia) F4 S4) as [S3 F3].
  destruct (stack_layer r ps PlanetB 3 _ ltac:(cbn; lia) F3 S3) as [S2 F2].
  destruct (stack_layer r ps LineB 2 _ ltac:(cbn; lia) F2 S2) as [S1 F1].
  apply (below_block 0 (DChunk <$> chunks)); [| |exact S1].
  - apply Forall_fmap, Forall_true. reflexivity.
  - eapply Forall_impl; [exact F1|]. cbn beta. intros; lia.
Qed.

Lemma layers_rank_Permutation r ps qs (chunks : Chunks) :
  ps ≡ₚ qs ->
  stacking_rank <$> ((DChunk <$> chunks) ++ flat_map (layer r ps) flush_order)
  = stacking_rank <$> ((DChunk <$> chunks) ++ flat_map (layer r qs) flush_order).
Proof.
  intros Hp. cbn [flat_map flush_order]. rewrite !fmap_app.
  f_equal.
  repeat (apply (f_equal2 app);
          [ eapply fmap_constant_length;
            [ apply layer_rank | apply layer_rank
            | apply Permutation_length, layer_Permutation, Hp ] | ]).
  reflexivity.
Qed.

Lemma frame_events_flush_after_queue order r n :
  exists before after,
    frame_events order r n = before ++ (EvFlush <$> flush_order) ++ after
    /\ Forall (fun e => is_flush e = false) before
    /\ Forall (fun e => is_queue e = false) after
    /\ Forall (fun e => is_queue e = false) (EvFlush <$> flush_order)
    /\ Forall (fun e => is_flush e = false) after.
Proof.
  unfold frame_events.
  eexists (_ ++ _), _. rewrite <- app_assoc. split; [reflexivity|].
  split; [|split; [|split]].
  - apply Forall_app. split; [repeat constructor|].
    apply Forall_fmap, Forall_true. intros []; reflexivity.
  - unfold plugin_events. destruct (getPluginManager _ _); repeat constructor.
  - repeat constructor.
  - unfold plugin_events. destruct (getPluginManager _ _); repeat constructor.
Qed.

(** ** An object without a pending callback never runs again *)

Lemma step_unscheduled i r a w :
  wf w -> unscheduled i w -> heap w !! i = Some r ->
  unscheduled i (step a w)
  /\ heap (step a w) !! i = Some r
  /\ filter (fun s => seen_this s = i) (framesSeen (step a w))
     = filter (fun s => seen_this s = i) (framesSeen w).
Proof.
  intros Hw Hu Hr.
  assert (Hlt : i < length (heap w)) by (eapply lookup_lt_Some; exact Hr).
  destruct a as [c gl b g| |id]; cbn [step].
  - destruct (initialize_exec c gl b g w) as (r' & He & _).
    unfold exec. rewrite He. cbn [snd]. unfold constructed_world. simplify_fields.
    split; [|split].
    + intros k Hk. unfold set_instance in Hk. simplify_fields.
      destruct (decide (k = nextRequestId w)) as [->|Hne].
      * rewrite lookup_insert_eq in Hk. injection Hk as Hk. lia.
      * rewrite lookup_insert_ne in Hk by congruence. exact (Hu _ Hk).
    + rewrite lookup_app_l by exact Hlt. exact Hr.
    + rewrite filter_app, filter_cons_False, filter_nil, app_nil_r; [reflexivity|].
      cbn. lia.
  - rewrite destroy_exec. destruct (instance w) as [j|]; simplify_fields;
      [|split; [exact Hu | split; [exact Hr | reflexivity]]].
    split; [|split; [exact Hr | reflexivity]].
    intros k Hk. unfold set_instance in Hk. simplify_fields.
    destruct (heap w !! j ≫= frameRequestId) as [k'|]; [|exact (Hu _ Hk)].
    apply lookup_delete_Some in Hk as [_ Hk]. exact (Hu _ Hk).
  - destruct (pending w !! id) as [ref|] eqn:Hid;
      [|rewrite animationFrame_not_pending by exact Hid;
        split; [exact Hu | split; [exact Hr | reflexivity]]].
    destruct (wf_pending w Hw _ _ Hid) as (r0 & Hr0 & _).
    destruct (animationFrame_exec id ref r0 w Hid Hr0) as (r' & He & _).
    rewrite He. unfold loop_world. simplify_fields.
    assert (Hne : ref <> i) by (intros ->; exact (Hu _ Hid)).
    split; [|split].
    + intros k Hk. unfold set_instance in Hk. simplify_fields.
      destruct (decide (k = nextRequestId w)) as [->|Hnk].
      * rewrite lookup_insert_eq in Hk. congruence.
      * rewrite lookup_insert_ne in Hk by congruence.
        apply lookup_delete_Some in Hk as [_ Hk]. exact (Hu _ Hk).
    + rewrite list_lookup_insert_ne by exact Hne. exact Hr.
    + rewrite filter_app, filter_cons_False, filter_nil, app_nil_r; [reflexivity|].
      cbn. exact Hne.
Qed.

Lemma run_unscheduled i r l : forall w,
  wf w -> unscheduled i w -> heap w !! i = Some r ->
  unscheduled i (run l w)
  /\ heap (run l w) !! i = Some r
  /\ filter (fun s => seen_this s = i) (framesSeen (run l w))
     = filter (fun s => seen_this s = i) (framesSeen w).
Proof.
  induction l as [|a l IH]; intros w Hw Hu Hr; cbn [run foldl].
  - split; [exact Hu | split; [exact Hr | reflexivity]].
  - destruct (step_unscheduled i r a w Hw Hu Hr) as (Hu' & Hr' & Hs').
    destruct (IH (step a w) (wf_step a w Hw) Hu' Hr') as (Hu2 & Hr2 & Hs2).
    split; [exact Hu2 | split; [exact Hr2 | rewrite <- Hs'; exact Hs2]].
Qed.

Lemma loop_events_no_cancel r n id :
  Forall (fun e => forall k, e <> EvCancelAnimationFrame k) (loop_events r n id).
Proof.
  unfold loop_events, frame_events, plugin_events.
  generalize (getLocationsAndChunks (gameUIManager (at_draw r (Date_now n))) (S n)).
  intros snapshot.
  destruct (getPluginManager _ _);
    cbn [source_order flush_order fmap list_fmap step_event app];
    repeat (constructor; [intros k; discriminate|]); constructor.
Qed.

(** * The claims *)

(** C1.  In every frame the stacking of the layers on the WebGL surface is
    decided by the order of the six flush calls alone: line batch, batch
    of the planet manager, circle batch, rect batch, text batch, sprite
    batch, a later flush on top.  Let the [queue*()] calls of the UI,
    voyage, wormhole and planet managers be issued in any order that is a
    rearrangement of the order of the source.  Then what is drawn is the
    background, then the six layers in the order of the flush calls, each
    layer holding what was left in its batch followed by what the frame
    queued for it; it is sorted by height; every layer holds the same
    commands as in the draw phase as written; the sequence of heights is
    the one of the draw phase as written; and in the calls of the frame
    the six flushes come in the fixed order after every queue call, with
    no other flush before or after them. *)
Theorem flush_order_decides_stacking
    (order : Locations -> Z -> list FrameStep) (a : Activation) :
  (forall locations now, order locations now ≡ₚ source_order locations now) ->
  let r := this a in
  let snapshot := getLocationsAndChunks (gameUIManager r) (envPos (world a)) in
  let pushes l := frame_pushes (frameCount r) (now r) (l (fst snapshot) (now r)) in
  let reordered := exec (draw_in_order order) a in
  let as_written := exec draw a in
  drawn (glManager (this reordered)) =
    (DChunk <$> snd snapshot)
    ++ layer r (pushes order) LineB ++ layer r (pushes order) PlanetB
    ++ layer r (pushes order) CircleB ++ layer r (pushes order) RectB
    ++ layer r (pushes order) TextB ++ layer r (pushes order) SpriteB
  /\ drawn (glManager (this as_written)) =
    (DChunk <$> snd snapshot)
    ++ layer r (pushes source_order) LineB ++ layer r (pushes source_order) PlanetB
    ++ layer r (pushes source_order) CircleB ++ layer r (pushes source_order) RectB
    ++ layer r (pushes source_order) TextB ++ layer r (pushes source_order) SpriteB
  /\ StronglySorted below (drawn (glManager (this reordered)))
  /\ (forall b, layer r (pushes order) b ≡ₚ layer r (pushes source_order) b)
  /\ stacking_rank <$> drawn (glManager (this reordered))
     = stacking_rank <$> drawn (glManager (this as_written))
  /\ exists before after,
       trace (world reordered)
         = trace (world a) ++ before ++ (EvFlush <$> flush_order) ++ after
       /\ Forall (fun e => is_flush e = false) (before ++ after)
       /\ Forall (fun e => is_queue e = false) ((EvFlush <$> flush_order) ++ after).
Proof.
  intros Horder. cbn zeta.
  assert (Hp : frame_pushes (frameCount (this a)) (now (this a))
                 (order (getLocationsAndChunks (gameUIManager (this a))
                           (envPos (world a))).1 (now (this a)))
               ≡ₚ frame_pushes (frameCount (this a)) (now (this a))
                 (source_order (getLocationsAndChunks (gameUIManager (this a))
                                  (envPos (world a))).1 (now (this a)))).
  { unfold frame_pushes. apply Permutation_flat_map, Horder. }
  rewrite (exec_draw_is_source_order a).
  destruct (draw_in_order_exec order a)
    as (_ & Hw & _ & _ & _ & _ & _ & _ & _ & _ & _ & Hd & _).
  destruct (draw_in_order_exec source_order a)
    as (_ & _ & _ & _ & _ & _ & _ & _ & _ & _ & _ & Hd0 & _).
  cbn zeta in Hw, Hd, Hd0. rewrite Hd, Hd0, Hw. cbn [trace].
  split; [cbn [flat_map flush_order]; rewrite app_nil_r; reflexivity|].
  split; [cbn [flat_map flush_order]; rewrite app_nil_r; reflexivity|].
  split; [apply layers_sorted|].
  split; [intros b; apply layer_Permutation, Hp|].
  split; [apply layers_rank_Permutation, Hp|].
  destruct (frame_events_flush_after_queue order (this a) (envPos (world a)))
    as (before & after & He & Hb & Ha & Hf & Hfa).
  exists before, after. rewrite He.
  split; [reflexivity|]. split; apply Forall_app; split; assumption.
Qed.

(** C2.  Every draw phase makes exactly these calls, in this order:
    (1) the projection matrix is set on the graphics context manager;
    (2) the overlay is cleared, then the primary GL context; (3) the
    locations and chunks are pulled from the state provider; (4) the
    background chunks are drawn at once; (5) the borders, the selected
    range ring, the selected rect, the hovering rect and the mouse path
    are queued, then the miner is drawn on the overlay; (6) the voyages
    are queued; (7) the wormholes are queued; (8) the planets are queued
    with the locations of the snapshot and the timestamp of the frame
    ([this.now]); (9) the six batchers are flushed in the fixed order;
    (10) the plugin hook runs: the plugin manager is asked for and, when
    there is one, draws the running plugins.  A collaborator that throws
    is outside the model: every call returns. *)
Theorem draw_calls_in_order (a : Activation) :
  let r := this a in
  let n := envPos (world a) in
  let locations := fst (getLocationsAndChunks (gameUIManager r) n) in
  let chunks := snd (getLocationsAndChunks (gameUIManager r) n) in
  trace (world (exec draw a)) =
    trace (world a)
    ++ [ EvSetProjectionMatrix ]
    ++ [ EvOverlayClear; EvGLClear ]
    ++ [ EvGetLocationsAndChunks ]
    ++ [ EvDrawChunks chunks ]
    ++ [ EvQueue QueueBorders; EvQueue QueueSelectedRangeRing;
         EvQueue QueueSelectedRect; EvQueue QueueHoveringRect;
         EvQueue QueueMousePath; EvDrawMiner ]
    ++ [ EvQueue QueueVoyages ]
    ++ [ EvQueue QueueWormholes ]
    ++ [ EvQueue (QueuePlanets locations (now r)) ]
    ++ [ EvFlush LineB; EvFlush PlanetB; EvFlush CircleB;
         EvFlush RectB; EvFlush TextB; EvFlush SpriteB ]
    ++ EvGetPluginManager ::
       match getPluginManager (gameUIManager r) (S n) with
       | Some p => [EvDrawAllRunningPlugins p (ctx (overlay2dRenderer r))]
       | None => []
       end.
Proof.
  cbn zeta. rewrite (exec_draw_is_source_order a).
  destruct (draw_in_order_exec source_order a) as (_ & Hw & _).
  cbn zeta in Hw. rewrite Hw. reflexivity.
Qed.

(** C3, as the code has it.  [initialize] constructs the sub-components
    in a fixed order: the graphics context manager and the overlay first,
    then the entity renderers, then the primitives (line, circle, rect,
    text), then the managers (voyage, wormhole, planet, UI).  Then the
    loop starts: its first iteration runs inside the constructor, while
    [Renderer.instance] still holds what it held before the call, and
    schedules the next one.  Only then is the new object installed as the
    singleton, and returned: when [initialize] returns, the singleton is
    the returned object, a new object of the store. *)
Theorem initialize_constructs_loops_then_installs
    (canvas' glCanvas' bufferCanvas' : Canvas) (g : GameUIManager) (w : World) :
  let ref := eval (initialize canvas' glCanvas' bufferCanvas' g) w in
  let w' := exec (initialize canvas' glCanvas' bufferCanvas' g) w in
  let t := Date_now (envPos w) in
  ref = length (heap w)
  /\ trace w' =
       trace w
       ++ [EvNew GameGLManagerC; EvNew Overlay2DRendererC]
       ++ [EvDateNow t]
       ++ [EvNew BackgroundRendererC; EvNew PlanetRendererC;
           EvNew AsteroidRendererC; EvNew BeltRendererC; EvNew MineRendererC;
           EvNew SpriteRendererC; EvNew QuasarRendererC;
           EvNew SpacetimeRipRendererC; EvNew RuinsRendererC;
           EvNew RingRendererC; EvNew BlackDomainRendererC]
       ++ [EvNew LineRendererC; EvNew CircleRendererC; EvNew RectRendererC;
           EvNew TextRendererC]
       ++ [EvNew VoyageRendererC; EvNew WormholeRendererC;
           EvNew PlanetRenderManagerC; EvNew UIRendererC]
       ++ [EvDateNow (Date_now (S (envPos w)))]
       ++ frame_events source_order
            (at_draw (new_fields canvas' glCanvas' bufferCanvas' g t)
               (Date_now (S (envPos w))))
            (S (S (envPos w)))
       ++ [EvRequestAnimationFrame (nextRequestId w)]
  /\ framesSeen w' =
       framesSeen w
       ++ [{| seen_this := ref; seen_frameCount := 1;
              seen_instance := instance w |}]
  /\ pending w' = <[nextRequestId w := ref]> (pending w)
  /\ instance w' = Some ref
  /\ exists r',
       heap w' = heap w ++ [r']
       /\ heap w' !! ref = Some r'
       /\ frameRequestId r' = Some (nextRequestId w)
       /\ canvas r' = canvas' /\ glCanvas r' = glCanvas'
       /\ bufferCanvas r' = bufferCanvas' /\ gameUIManager r' = g
       /\ ctx (overlay2dRenderer r') = Ctx2DOf canvas'.
Proof.
  cbn zeta.
  destruct (initialize_eval_exec canvas' glCanvas' bufferCanvas' g w)
    as (r' & Hev & Hex & ((Hcv & Hgl & Hbc & Hg & _ & Hcx) & _ & _ & Hid & _)).
  rewrite Hev, Hex.
  unfold constructed_world, constructor_events, loop_events, setup_components.
  simplify_fields.
  split; [reflexivity|]. split; [reflexivity|]. split; [reflexivity|].
  split; [reflexivity|]. split; [reflexivity|].
  exists r'. split; [reflexivity|].
  split; [apply list_lookup_middle; reflexivity|].
  repeat split; assumption.
Qed.

(** C4.  In a world that [initialize], [destroy] and the host's frame
    callbacks can reach (so [destroy] is called between two iterations,
    not from within a draw phase), [destroy()] leaves [Renderer.instance]
    null.
    When there was an active instance, its next iteration was pending and
    [destroy] cancels exactly that request: nothing of the instance stays
    scheduled, and whatever happens afterwards its loop never runs again
    (its fields stay as they are and it draws no further frame).  When
    there was no active instance nothing changes.  A second [destroy()] in
    a row changes nothing and the singleton is absent after both. *)
Theorem destroy_cancels_and_clears (w : World) :
  reachable w ->
  let w' := exec destroy w in
  instance w' = None
  /\ match instance w with
     | Some i =>
         exists r id,
           heap w !! i = Some r
           /\ frameRequestId r = Some id
           /\ pending w !! id = Some i
           /\ trace w' = trace w ++ [EvCancelAnimationFrame (Some id)]
           /\ pending w' = delete id (pending w)
           /\ unscheduled i w'
           /\ forall l,
                heap (run l w') !! i = Some r
                /\ filter (fun s => seen_this s = i) (framesSeen (run l w'))
                   = filter (fun s => seen_this s = i) (framesSeen w)
     | None => w' = w
     end
  /\ exec destroy w' = w'
  /\ instance (exec destroy w') = None.
Proof.
  intros Hr. apply reachable_wf in Hr. cbn zeta.
  pose proof (wf_destroy w Hr) as Hwf'.
  assert (Hnone : instance (exec destroy w) = None)
    by (rewrite destroy_exec; reflexivity).
  split; [exact Hnone|]. split; [|split].
  - destruct (instance w) as [i|] eqn:Hi.
    + destruct (wf_instance w Hr i Hi) as [r Hri].
      destruct (wf_frames w Hr i r Hri) as [_ [id Hid]].
      pose proof (wf_active w Hr i r id Hi Hri Hid) as Hpend.
      assert (He : exec destroy w
                   = set_instance None
                       (set_pending (delete id (pending w))
                          (set_trace (trace w ++ [EvCancelAnimationFrame (Some id)]) w))).
      { rewrite destroy_exec, Hi, Hri. cbn [mbind option_bind]. rewrite Hid.
        reflexivity. }
      assert (Hu : unscheduled i (exec destroy w)).
      { rewrite He. intros k Hk. simplify_fields.
        apply lookup_delete_Some in Hk as [Hne Hk].
        destruct (wf_pending w Hr k i Hk) as (r2 & Hr2 & Hid2).
        rewrite Hri in Hr2. injection Hr2 as <-. congruence. }
      assert (Hh : heap (exec destroy w) !! i = Some r)
        by (rewrite He; exact Hri).
      exists r, id. split; [exact Hri|]. split; [exact Hid|].
      split; [exact Hpend|]. split; [rewrite He; reflexivity|].
      split; [rewrite He; reflexivity|]. split; [exact Hu|].
      intros l.
      destruct (run_unscheduled i r l (exec destroy w) Hwf' Hu Hh) as (_ & Hrl & Hsl).
      split; [exact Hrl|]. rewrite Hsl, He. reflexivity.
    + rewrite destroy_exec, Hi. destruct w; cbn in Hi |- *. subst. reflexivity.
  - rewrite (destroy_exec (exec destroy w)), Hnone.
    destruct (exec destroy w); cbn in Hnone |- *. subst. reflexivity.
  - rewrite destroy_exec. reflexivity.
Qed.

(** C5.  In a reachable world with an active instance, a second
    [initialize()] makes the new object the singleton and cancels
    nothing: the callback of the previous instance stays with the host.
    A [destroy()] after it cancels the request of the new instance only;
    the callback of the previous instance is still pending, and when the
    host runs it the previous instance draws a further frame. *)
Theorem reinitialize_orphans_previous_loop
    (canvas glCanvas bufferCanvas : Canvas) (g : GameUIManager)
    (w : World) (old : Ref) :
  reachable w ->
  instance w = Some old ->
  let new := eval (initialize canvas glCanvas bufferCanvas g) w in
  let w1 := exec (initialize canvas glCanvas bufferCanvas g) w in
  let w2 := exec destroy w1 in
  exists r id,
    heap w !! old = Some r
    /\ frameRequestId r = Some id
    /\ pending w !! id = Some old
    /\ new <> old
    /\ instance w1 = Some new
    /\ (exists calls,
          trace w1 = trace w ++ calls
          /\ Forall (fun e => forall k, e <> EvCancelAnimationFrame k) calls)
    /\ pending w1 !! id = Some old
    /\ pending w1 !! nextRequestId w = Some new
    /\ nextRequestId w <> id
    /\ trace w2 = trace w1 ++ [EvCancelAnimationFrame (Some (nextRequestId w))]
    /\ pending w2 !! nextRequestId w = None
    /\ pending w2 !! id = Some old
    /\ instance w2 = None
    /\ exists r',
         heap (exec (animationFrame id) w2) !! old = Some r'
         /\ frameCount r' = (frameCount r + 1)%Z.
Proof.
  intros Hr Hi. apply reachable_wf in Hr. cbn zeta.
  destruct (wf_instance w Hr old Hi) as [r Hro].
  destruct (wf_frames w Hr old r Hro) as [_ [id Hid]].
  pose proof (wf_active w Hr old r id Hi Hro Hid) as Hpend.
  pose proof (wf_ids w Hr old r id Hro Hid) as Hlt.
  assert (Hold : old < length (heap w)) by (eapply lookup_lt_Some; exact Hro).
  destruct (initialize_eval_exec canvas glCanvas bufferCanvas g w)
    as (r1 & Hev & Hex & (_ & _ & _ & Hid1 & _)).
  cbn [nextRequestId set_envPos] in Hid1. rewrite Hev, Hex. clear Hev Hex.
  remember (set_instance (Some (length (heap w)))
              (constructed_world canvas glCanvas bufferCanvas g r1 w))
    as w1 eqn:Hw1.
  assert (Hh1 : heap w1 = heap w ++ [r1]) by (rewrite Hw1; reflexivity).
  assert (Hp1 : pending w1 = <[nextRequestId w := length (heap w)]> (pending w))
    by (rewrite Hw1; reflexivity).
  assert (Hi1 : instance w1 = Some (length (heap w)))
    by (rewrite Hw1; reflexivity).
  assert (Ht1 : trace w1
                = trace w
                  ++ constructor_events (Date_now (envPos w))
                  ++ (EvNew <$> setup_components)
                  ++ loop_events
                       (new_fields canvas glCanvas bufferCanvas g
                          (Date_now (envPos w)))
                       (S (envPos w)) (nextRequestId w))
    by (rewrite Hw1; reflexivity).
  clear Hw1.
  assert (Hd : exec destroy w1
               = set_instance None
                   (set_pending (delete (nextRequestId w) (pending w1))
                      (set_trace
                         (trace w1 ++ [EvCancelAnimationFrame (Some (nextRequestId w))])
                         w1))).
  { rewrite destroy_exec, Hi1, Hh1, list_lookup_middle by reflexivity.
    cbn [mbind option_bind]. rewrite Hid1. reflexivity. }
  assert (Hp2 : pending (exec destroy w1) !! id = Some old).
  { rewrite Hd. cbn [pending set_instance set_pending].
    rewrite lookup_delete_ne by lia.
    rewrite Hp1, lookup_insert_ne by lia. exact Hpend. }
  assert (Hh2 : heap (exec destroy w1) !! old = Some r).
  { rewrite Hd. cbn [heap set_instance set_pending set_trace].
    rewrite Hh1, lookup_app_l by exact Hold. exact Hro. }
  exists r, id. split; [exact Hro|]. split; [exact Hid|]. split; [exact Hpend|].
  split; [lia|]. split; [exact Hi1|]. split.
  { eexists. split; [exact Ht1|].
    apply Forall_app. split; [|apply Forall_app; split].
    - unfold constructor_events.
      repeat (constructor; [intros k; discriminate|]). constructor.
    - apply Forall_fmap, Forall_true. intros c k. discriminate.
    - apply loop_events_no_cancel. }
  split; [rewrite Hp1, lookup_insert_ne by lia; exact Hpend|].
  split; [rewrite Hp1; apply lookup_insert_eq|].
  split; [lia|]. split; [rewrite Hd; reflexivity|].
  split; [rewrite Hd; cbn [pending set_instance set_pending];
          apply lookup_delete_eq|].
  split; [exact Hp2|]. split; [rewrite Hd; reflexivity|].
  destruct (animationFrame_exec id old r (exec destroy w1) Hp2 Hh2)
    as (r' & Hf & (_ & Hfc & _)).
  exists r'. split; [|exact Hfc].
  rewrite Hf. unfold loop_world. cbn [heap set_pending].
  apply list_lookup_insert_eq. eapply lookup_lt_Some. exact Hh2.
Qed.

(** C6, as the code has it.  After [destroy()] followed by
    [initialize()] the singleton is a new object.  Its constructor sets
    the frame counter to 0, and the first iteration of the loop has run
    before [initialize] returns: the object has drawn one frame, frame 1,
    while no singleton was installed; its frame counter is 1; and its loop
    is active, the callback of its next iteration being pending. *)
Theorem destroy_then_initialize_is_fresh
    (canvas glCanvas bufferCanvas : Canvas) (g : GameUIManager) (w : World) :
  let w0 := exec destroy w in
  let ref := eval (initialize canvas glCanvas bufferCanvas g) w0 in
  let w' := exec (initialize canvas glCanvas bufferCanvas g) w0 in
  instance w' = Some ref
  /\ heap w !! ref = None
  /\ frameCount (new_fields canvas glCanvas bufferCanvas g (Date_now (envPos w0)))
     = 0%Z
  /\ framesSeen w' =
       framesSeen w
       ++ [{| seen_this := ref; seen_frameCount := 1; seen_instance := None |}]
  /\ exists r' id,
       heap w' !! ref = Some r'
       /\ frameCount r' = 1%Z
       /\ frameRequestId r' = Some id
       /\ pending w' !! id = Some ref.
Proof.
  cbn zeta.
  assert (Hheap : heap (exec destroy w) = heap w
                  /\ framesSeen (exec destroy w) = framesSeen w
                  /\ instance (exec destroy w) = None).
  { rewrite destroy_exec. destruct (instance w); simplify_fields; auto. }
  destruct Hheap as (Hh & Hs & Hi).
  destruct (initialize_eval_exec canvas glCanvas bufferCanvas g (exec destroy w))
    as (r' & Hev & Hex & (_ & Hfc & _ & Hid & _)).
  rewrite Hev, Hex. clear Hev Hex.
  unfold constructed_world. simplify_fields. rewrite Hh, Hs, Hi.
  split; [reflexivity|].
  split; [apply lookup_ge_None_2; lia|].
  split; [reflexivity|]. split; [reflexivity|].
  exists r', (nextRequestId (exec destroy w)).
  split; [apply list_lookup_middle; reflexivity|].
  split; [exact Hfc|]. split; [exact Hid|]. apply lookup_insert_eq.
Qed.

(** C7.  For every value of the frame counter and every integer interval,
    [debug(interval)] is true exactly when the remainder of the frame
    counter by the interval is [0]: when the interval divides the frame
    counter, the remainder being [NaN], never equal to [0], for the
    interval [0].  Without an argument the interval is [120], so that
    [debug()] is true on the frames 0, 120, 240, ... and on no other. *)
Theorem debug_every_interval (r : Renderer) (interval : Z) :
  (debug (Some interval) r = true <-> js_rem (frameCount r) interval = Some 0%Z)
  /\ (debug (Some interval) r = true
      <-> interval <> 0%Z /\ (frameCount r mod interval = 0)%Z)
  /\ debug None r = debug (Some 120%Z) r
  /\ (debug None r = true <-> exists k : Z, frameCount r = (120 * k)%Z).
Proof.
  assert (Hrem : forall i : Z,
             debug (Some i) r = true <-> js_rem (frameCount r) i = Some 0%Z).
  { intros i. cbv [debug js_rem default from_option id].
    destruct (Z.eqb_spec i 0) as [->|Hi].
    - split; discriminate.
    - split.
      + intros Hz. apply Z.eqb_eq in Hz. rewrite Hz. reflexivity.
      + intros [= ->]. reflexivity. }
  assert (Hmod : forall i : Z,
             debug (Some i) r = true
             <-> i <> 0%Z /\ (frameCount r mod i = 0)%Z).
  { intros i. rewrite Hrem. unfold js_rem.
    destruct (Z.eqb_spec i 0) as [->|Hi].
    - split; [discriminate | intros [Hne _]; congruence].
    - rewrite Z.mod_divide by exact Hi. rewrite <- Z.rem_divide by exact Hi.
      split; [intros [= Hz]; auto | intros [_ ->]; reflexivity]. }
  split; [apply Hrem|]. split; [apply Hmod|]. split; [reflexivity|].
  change (debug None r) with (debug (Some 120%Z) r). rewrite Hmod.
  rewrite Z.mod_divide by discriminate. split.
  - intros [_ [k Hk]]. exists k. lia.
  - intros [k Hk]. split; [discriminate|]. exists k. lia.
Qed.

(** C8.  In every iteration of the loop the clock is read once, at the
    start, before the draw phase: the first call of the iteration is
    [Date.now()], no other call of the iteration reads the clock, and the
    value it returned is the timestamp that [queuePlanets] receives, the
    one from which the managers compute what they queue in this frame, and
    still the value of [this.now] when the iteration ends. *)
Theorem timestamp_captured_once (a : Activation) :
  let r := this a in
  let w := world a in
  let t := Date_now (envPos w) in
  let snapshot := getLocationsAndChunks (gameUIManager r) (S (envPos w)) in
  let a' := exec loop a in
  exists draw_calls,
    trace (world a')
      = trace w ++ [EvDateNow t] ++ draw_calls
        ++ [EvRequestAnimationFrame (nextRequestId w)]
    /\ draw_calls =
         [ EvSetProjectionMatrix; EvOverlayClear; EvGLClear;
           EvGetLocationsAndChunks; EvDrawChunks (snd snapshot);
           EvQueue QueueBorders; EvQueue QueueSelectedRangeRing;
           EvQueue QueueSelectedRect; EvQueue QueueHoveringRect;
           EvQueue QueueMousePath; EvDrawMiner;
           EvQueue QueueVoyages; EvQueue QueueWormholes;
           EvQueue (QueuePlanets (fst snapshot) t);
           EvFlush LineB; EvFlush PlanetB; EvFlush CircleB;
           EvFlush RectB; EvFlush TextB; EvFlush SpriteB ]
         ++ plugin_events (getPluginManager (gameUIManager r) (S (S (envPos w))))
              (ctx (overlay2dRenderer r))
    /\ Forall (fun e => forall t', e <> EvDateNow t')
         (draw_calls ++ [EvRequestAnimationFrame (nextRequestId w)])
    /\ drawn (glManager (this a')) =
         (DChunk <$> snd snapshot)
         ++ flat_map
              (layer r (frame_pushes (frameCount r + 1) t
                          (source_order (fst snapshot) t)))
              flush_order
    /\ now (this a') = t
    /\ envPos (world a') = S (S (S (envPos w))).
Proof.
  cbn zeta.
  destruct (loop_exec a) as (_ & Hw & _ & _ & Hnow & _ & _ & Hd).
  cbn zeta in Hw, Hd. rewrite Hw, Hnow, Hd. cbn [trace envPos].
  unfold loop_events, frame_events, at_draw. simplify_fields.
  eexists. split; [reflexivity|]. split; [reflexivity|].
  split; [|repeat split; reflexivity].
  unfold plugin_events. destruct (getPluginManager _ _);
    repeat (constructor; [intros t'; discriminate|]); constructor.
Qed.

(** C9.  The plugin hook is the last thing a draw phase does.  When the
    state provider has a plugin manager, [drawAllRunningPlugins] is the
    last call of the phase, it is made once, and its argument is the 2D
    context of the overlay; the plugins are then the last thing drawn on
    the overlay.  When there is no plugin manager the phase still runs to
    its end: the last call is the query for the plugin manager, nothing is
    drawn for plugins, and the batches have all been flushed. *)
Theorem plugin_hook_is_last (a : Activation) :
  let r := this a in
  let a' := exec draw a in
  exists calls,
    trace (world a') = trace (world a) ++ calls
    /\ match getPluginManager (gameUIManager r) (S (envPos (world a))) with
       | Some p =>
           last calls = Some (EvDrawAllRunningPlugins p (ctx (overlay2dRenderer r)))
           /\ filter (fun e => is_plugin_draw e) calls
              = [EvDrawAllRunningPlugins p (ctx (overlay2dRenderer r))]
           /\ last (overlayDrawn (overlay2dRenderer (this a'))) = Some (OPlugins p)
       | None =>
           last calls = Some EvGetPluginManager
           /\ filter (fun e => is_plugin_draw e) calls = []
           /\ overlayDrawn (overlay2dRenderer (this a')) = [OMiner]
       end
    /\ (forall b, batch (this a') b = []).
Proof.
  cbn zeta. rewrite (exec_draw_is_source_order a).
  destruct (draw_in_order_exec source_order a)
    as (_ & Hw & _ & _ & _ & _ & _ & _ & _ & _ & _ & _ & Ho & Hb).
  cbn zeta in Hw, Ho, Hb. rewrite Hw, Ho.
  eexists. split; [reflexivity|]. split; [|exact Hb].
  unfold frame_events, plugin_events, plugin_overlay.
  generalize (getLocationsAndChunks (gameUIManager (this a)) (envPos (world a))).
  generalize (ctx (overlay2dRenderer (this a))).
  intros c snapshot.
  destruct (getPluginManager _ _) as [p|];
    cbn [source_order flush_order fmap list_fmap step_event app flat_map
         step_overlay];
    repeat split; reflexivity.
Qed.

(** C10.  An iteration of the loop increments the frame counter before it
    calls the draw phase: the draw phase of an iteration sees the counter
    one above what it was.  The first iteration runs inside [initialize]
    (the constructor calls [setup], which calls [loop]): when [initialize]
    returns, the draw phase of the new object has run once, on frame 1,
    and its counter is 1.  So, in every world that [initialize], [destroy]
    and the host's frame callbacks can reach, the frame counter of every
    object is at least 1 and no draw phase has seen a frame counter below
    1. *)
Theorem no_draw_phase_sees_frame_zero (w : World) :
  reachable w ->
  (forall a : Activation,
     framesSeen (world (exec loop a))
     = framesSeen (world a)
       ++ [{| seen_this := self a;
              seen_frameCount := (frameCount (this a) + 1)%Z;
              seen_instance := instance (world a) |}]
     /\ frameCount (this (exec loop a)) = (frameCount (this a) + 1)%Z)
  /\ (forall canvas glCanvas bufferCanvas g,
        let ref := eval (initialize canvas glCanvas bufferCanvas g) w in
        let w' := exec (initialize canvas glCanvas bufferCanvas g) w in
        framesSeen w'
        = framesSeen w
          ++ [{| seen_this := ref; seen_frameCount := 1;
                 seen_instance := instance w |}]
        /\ exists r', heap w' !! ref = Some r' /\ frameCount r' = 1%Z)
  /\ (forall ref r, heap w !! ref = Some r -> (1 <= frameCount r)%Z)
  /\ Forall (fun s => (1 <= seen_frameCount s)%Z) (framesSeen w).
Proof.
  intros Hw. apply reachable_wf in Hw. split; [|split; [|split]].
  - intros a. destruct (loop_exec a) as (_ & Hwo & _ & Hfc & _).
    cbn zeta in Hwo. rewrite Hwo, Hfc. split; reflexivity.
  - intros canvas glCanvas bufferCanvas g. cbn zeta.
    destruct (initialize_eval_exec canvas glCanvas bufferCanvas g w)
      as (r' & Hev & Hex & (_ & Hfc & _)).
    rewrite Hev, Hex.
    unfold constructed_world. simplify_fields. split; [reflexivity|].
    exists r'. split; [apply list_lookup_middle; reflexivity | exact Hfc].
  - intros ref r Hr. exact (proj1 (wf_frames w Hw ref r Hr)).
  - exact (wf_seen w Hw).
Qed.

End Properties.

(** * Concrete runs *)

(** The draw phase as written, on two locations and one chunk. *)
Example drawn_as_written :
  drawn (glManager (this (exec draw demo_activation)))
  = [ DChunk 30;
      DCmd LineB 1; DCmd LineB 6; DCmd LineB 9; DCmd LineB 12;
      DCmd PlanetB 20; DCmd PlanetB 21;
      DCmd CircleB 2; DCmd CircleB 3; DCmd CircleB 8;
      DCmd RectB 4; DCmd RectB 5;
      DCmd TextB 7; DCmd TextB 10; DCmd TextB 20; DCmd TextB 21;
      DCmd SpriteB 11; DCmd SpriteB 20; DCmd SpriteB 21 ].
Proof. vm_compute. reflexivity. Qed.

(** The same frame with the queue calls issued last first: the layers are
    where they were, the commands within a layer in the order they were
    queued. *)
Example drawn_in_reverse_order :
  drawn (glManager (this (exec (draw_in_order reverse_order) demo_activation)))
  = [ DChunk 30;
      DCmd LineB 12; DCmd LineB 9; DCmd LineB 6; DCmd LineB 1;
      DCmd PlanetB 20; DCmd PlanetB 21;
      DCmd CircleB 8; DCmd CircleB 3; DCmd CircleB 2;
      DCmd RectB 5; DCmd RectB 4;
      DCmd TextB 20; DCmd TextB 21; DCmd TextB 10; DCmd TextB 7;
      DCmd SpriteB 20; DCmd SpriteB 21; DCmd SpriteB 11 ].
Proof. vm_compute. reflexivity. Qed.

(** The calls of a draw phase without plugin manager end with the query
    for it. *)
Example draw_without_plugin_manager :
  trace (world (exec draw demo_activation_no_plugins))
  = [ EvSetProjectionMatrix; EvOverlayClear; EvGLClear;
      EvGetLocationsAndChunks; EvDrawChunks [30];
      EvQueue QueueBorders; EvQueue QueueSelectedRangeRing;
      EvQueue QueueSelectedRect; EvQueue QueueHoveringRect;
      EvQueue QueueMousePath; EvDrawMiner; EvQueue QueueVoyages;
      EvQueue QueueWormholes; EvQueue (QueuePlanets [20; 21] 1000);
      EvFlush LineB; EvFlush PlanetB; EvFlush CircleB;
      EvFlush RectB; EvFlush TextB; EvFlush SpriteB;
      EvGetPluginManager ].
Proof. vm_compute. reflexivity. Qed.

(** After the first [initialize]: one frame drawn before the singleton
    was installed, the singleton installed, request 1 pending. *)
Example demo_world_state :
  framesSeen demo_world
  = [{| seen_this := 0; seen_frameCount := 1; seen_instance := None |}]
  /\ instance demo_world = Some 0
  /\ map_to_list (pending demo_world) = [(1, 0)]
  /\ (fun r => (frameCount r, frameRequestId r, now r)) <$> heap demo_world
     = [(1%Z, Some 1, 1016%Z)].
Proof. vm_compute. repeat split; reflexivity. Qed.

(** [initialize] twice, then [destroy], then the host runs the request of
    the first object: the orphaned loop draws its frame 2. *)
Example orphaned_loop_runs :
  let w := run [ AInitialize 3 4 5 demo_gameUIManager; ADestroy; AFrame 1 ]
             demo_world in
  framesSeen w
  = [ {| seen_this := 0; seen_frameCount := 1; seen_instance := None |};
      {| seen_this := 1; seen_frameCount := 1; seen_instance := Some 0 |};
      {| seen_this := 0; seen_frameCount := 2; seen_instance := None |} ]
  /\ instance w = None
  /\ map_to_list (pending w) = [(3, 0)].
Proof. vm_compute. repeat split; reflexivity. Qed.

Example debug_on_frame_1 :
  debug None <$> heap demo_world = [false]
  /\ debug (Some 1%Z) <$> heap demo_world = [true]
  /\ debug (Some 0%Z) <$> heap demo_world = [false].
Proof. vm_compute. repeat split; reflexivity. Qed.

Example debug_on_frame_240 :
  debug None (set_frameCount 240 (new_fields 0 1 2 demo_gameUIManager 0)) = true
  /\ debug None (set_frameCount 241 (new_fields 0 1 2 demo_gameUIManager 0)) = false
  /\ debug None (set_frameCount 0 (new_fields 0 1 2 demo_gameUIManager 0)) = true.
Proof. vm_compute. repeat split; reflexivity. Qed.

(** Witness of C1: the reverse order is a rearrangement of the order of
    the source, and the heights drawn are those of the source. *)
Lemma flush_order_decides_stacking_witness :
  (forall locations now,
     reverse_order locations now ≡ₚ source_order locations now)
  /\ stacking_rank
       <$> drawn (glManager (this (exec (draw_in_order reverse_order) demo_activation)))
     = stacking_rank <$> drawn (glManager (this (exec draw demo_activation))).
Proof.
  assert (Hrev : forall locations now,
             reverse_order locations now ≡ₚ source_order locations now)
    by (intros locations now; apply reverse_Permutation).
  split; [exact Hrev|].
  exact (proj1 (proj2 (proj2 (proj2 (proj2
           (flush_order_decides_stacking reverse_order demo_activation Hrev)))))).
Defined.

(** Counterexample to C3 as stated: in the first [initialize] the draw
    phase of the new object runs while [Renderer.instance] is still not
    set; the loop has started before the singleton is installed. *)
Lemma initialize_starts_loop_before_installing :
  ~ installed_before_loop
      (eval (initialize 0 1 2 demo_gameUIManager) world0)
      (exec (initialize 0 1 2 demo_gameUIManager) world0).
Proof.
  unfold installed_before_loop. intros Hf. vm_compute in Hf.
  inversion Hf as [|s l Hs _]. specialize (Hs eq_refl). discriminate Hs.
Qed.

(** Witness of C4, on the world after a first [initialize]. *)
Lemma destroy_cancels_and_clears_witness :
  reachable demo_world
  /\ instance (exec destroy demo_world) = None.
Proof.
  assert (Hr : reachable demo_world)
    by (apply reachable_step, reachable_0).
  split; [exact Hr|].
  exact (proj1 (destroy_cancels_and_clears demo_world Hr)).
Defined.

(** Witness of C5: a second [initialize] on the world after a first one. *)
Lemma reinitialize_orphans_previous_loop_witness :
  reachable demo_world
  /\ instance demo_world = Some 0
  /\ exists r id,
       heap demo_world !! 0 = Some r
       /\ frameRequestId r = Some id
       /\ pending (exec destroy (exec (initialize 3 4 5 demo_gameUIManager) demo_world))
            !! id = Some 0.
Proof.
  assert (Hr : reachable demo_world)
    by (apply reachable_step, reachable_0).
  assert (Hi : instance demo_world = Some 0) by (vm_compute; reflexivity).
  split; [exact Hr|]. split; [exact Hi|].
  destruct (reinitialize_orphans_previous_loop 3 4 5 demo_gameUIManager
              demo_world 0 Hr Hi)
    as (r & id & Hro & Hid & _ & _ & _ & _ & _ & _ & _ & _ & _ & Hp & _).
  exists r, id. split; [exact Hro|]. split; [exact Hid|]. exact Hp.
Defined.

(** Counterexample to C6 as stated: after [destroy()] followed by
    [initialize()] the frame counter of the singleton is 1, not 0. *)
Lemma fresh_singleton_frame_counter_is_not_zero :
  ~ singleton_frame_counter_zero
      (run [ADestroy; AInitialize 0 1 2 demo_gameUIManager] demo_world).
Proof.
  unfold singleton_frame_counter_zero. intros (i & r & Hi & Hr & Hz).
  vm_compute in Hi. injection Hi as <-.
  assert (Hfc : frameCount
                  <$> heap (run [ADestroy; AInitialize 0 1 2 demo_gameUIManager]
                              demo_world) !! 1
                = Some 1%Z) by (vm_compute; reflexivity).
  rewrite Hr in Hfc. injection Hfc as Hfc. rewrite Hz in Hfc. discriminate Hfc.
Qed.

(** Witness of C10, on the world after a first [initialize]. *)
Lemma no_draw_phase_sees_frame_zero_witness :
  reachable demo_world
  /\ Forall (fun s => (1 <= seen_frameCount s)%Z) (framesSeen demo_world).
Proof.
  assert (Hr : reachable demo_world)
    by (apply reachable_step, reachable_0).
  split; [exact Hr|].
  exact (proj2 (proj2 (proj2 (no_draw_phase_sees_frame_zero demo_world Hr)))).
Defined.

(** * Further properties of the loop and of the singleton *)

Section LoopProperties.

Context `{Collaborators}.

Lemma reachable_next_request_free w :
  wf w -> pending w !! nextRequestId w = None.
Proof.
  intros Hw. destruct (pending w !! nextRequestId w) as [ref|] eqn:Hp;
    [|reflexivity].
  destruct (wf_pending w Hw _ _ Hp) as (r & Hr & Hid).
  pose proof (wf_ids w Hw _ _ _ Hr Hid). lia.
Qed.

Lemma frames_seen_by_snoc ref w s :
  frames_seen_by ref (set_framesSeen (framesSeen w ++ [s]) w)
  = frames_seen_by ref w
    ++ (if decide (seen_this s = ref) then [seen_frameCount s] else []).
Proof.
  unfold frames_seen_by. cbn [framesSeen set_framesSeen].
  rewrite filter_app, fmap_app. f_equal.
  destruct (decide (seen_this s = ref)) as [Hs|Hs].
  - rewrite filter_cons_True by exact Hs. reflexivity.
  - rewrite filter_cons_False by exact Hs. reflexivity.
Qed.

Lemma counter_counts_draws_step a w :
  wf w -> counter_counts_draws w -> counter_counts_draws (step a w).
Proof.
  intros Hw Hc. destruct a as [c gl b g| |id]; cbn [step].
  - destruct (initialize_eval_exec c gl b g w) as (r' & _ & Hex & (_ & Hfc & _)).
    rewrite Hex. clear Hex. unfold new_fields in Hfc. cbn [frameCount] in Hfc.
    intros ref. specialize (Hc ref).
    unfold frames_seen_by, constructed_world, set_instance in *.
    cbn [heap framesSeen] in *.
    rewrite filter_app, fmap_app.
    destruct (decide (ref = length (heap w))) as [->|Hne].
    + rewrite list_lookup_middle by reflexivity.
      rewrite lookup_ge_None_2 in Hc by lia. rewrite Hc, Hfc.
      rewrite filter_cons_True by reflexivity. split; [lia|reflexivity].
    + rewrite filter_cons_False by (cbn; congruence).
      rewrite filter_nil, app_nil_r.
      destruct (heap w !! ref) as [r|] eqn:Hr.
      * rewrite lookup_app_l by (eapply lookup_lt_Some; exact Hr).
        rewrite Hr. exact Hc.
      * apply lookup_ge_None_1 in Hr.
        rewrite lookup_ge_None_2 by (rewrite length_app; cbn; lia). exact Hc.
  - rewrite destroy_exec. intros ref. specialize (Hc ref).
    unfold frames_seen_by in *.
    destruct (instance w); cbn [heap framesSeen set_instance set_pending set_trace];
      exact Hc.
  - destruct (pending w !! id) as [ref0|] eqn:Hid;
      [|rewrite animationFrame_not_pending by exact Hid; exact Hc].
    destruct (wf_pending w Hw _ _ Hid) as (r0 & Hr0 & _).
    destruct (animationFrame_exec id ref0 r0 w Hid Hr0) as (r' & He & (_ & Hfc & _)).
    rewrite He. clear He.
    assert (Hlt : ref0 < length (heap w)) by (eapply lookup_lt_Some; exact Hr0).
    intros ref. pose proof (Hc ref) as Hcr.
    unfold frames_seen_by, loop_world in *.
    cbn [heap framesSeen set_pending] in *.
    rewrite filter_app, fmap_app.
    destruct (decide (ref = ref0)) as [->|Hne].
    + rewrite list_lookup_insert_eq by exact Hlt. rewrite Hr0 in Hcr.
      destruct Hcr as [Hge Hseen].
      rewrite filter_cons_True by reflexivity. rewrite Hseen, Hfc.
      split; [lia|].
      replace (Z.to_nat (frameCount r0 + 1)) with (S (Z.to_nat (frameCount r0)))
        by lia.
      rewrite seq_S, fmap_app. cbn [fmap list_fmap seen_frameCount].
      f_equal. f_equal. lia.
    + rewrite list_lookup_insert_ne by congruence.
      rewrite filter_cons_False by (cbn; congruence).
      rewrite filter_nil, app_nil_r. exact Hcr.
Qed.

Lemma counter_counts_draws_reachable w :
  reachable w -> counter_counts_draws w.
Proof.
  induction 1 as [|a w Hr IH].
  - intros ref. cbn. rewrite lookup_nil. reflexivity.
  - apply counter_counts_draws_step; [apply reachable_wf; exact Hr | exact IH].
Qed.

(** X1.  In every reachable world the frame counter of an object is the
    number of draw phases it has run, and its draw phases have seen the
    frame counters 1, 2, 3, ... in this order, without gap or repeat. *)
Theorem frame_counter_counts_draws (w : World) (ref : Ref) (r : Renderer) :
  reachable w ->
  heap w !! ref = Some r ->
  frames_seen_by ref w = Z.of_nat <$> seq 1 (Z.to_nat (frameCount r))
  /\ frameCount r = Z.of_nat (length (frames_seen_by ref w)).
Proof.
  intros Hw Hr. pose proof (counter_counts_draws_reachable w Hw ref) as Hc.
  rewrite Hr in Hc. destruct Hc as [Hge Hs]. split; [exact Hs|].
  rewrite Hs, length_fmap, length_seq. lia.
Qed.

(** X2.  In every reachable world an object has at most one callback
    with the host, and it is the request whose id the object holds in
    [frameRequestId]; no two objects hold the same request id. *)
Theorem one_callback_per_object (w : World) (id1 id2 : nat) (ref : Ref) :
  reachable w ->
  pending w !! id1 = Some ref ->
  pending w !! id2 = Some ref ->
  id1 = id2
  /\ exists r, heap w !! ref = Some r /\ frameRequestId r = Some id1.
Proof.
  intros Hw H1 H2. apply reachable_wf in Hw.
  destruct (wf_pending w Hw _ _ H1) as (r1 & Hr1 & Hid1).
  destruct (wf_pending w Hw _ _ H2) as (r2 & Hr2 & Hid2).
  rewrite Hr1 in Hr2. injection Hr2 as <-.
  split; [congruence|]. exists r1. split; assumption.
Qed.

(** X3.  The number of loops that the host holds: in a reachable world
    [initialize] adds one, a frame callback leaves it as it is (the
    callback that runs schedules its successor), and [destroy] takes one
    away when there is an active instance and none otherwise. *)
Theorem scheduled_loops_count (w : World) :
  reachable w ->
  (forall canvas glCanvas bufferCanvas g,
     size (pending (step (AInitialize canvas glCanvas bufferCanvas g) w))
     = S (size (pending w)))
  /\ (forall id, size (pending (step (AFrame id) w)) = size (pending w))
  /\ size (pending (step ADestroy w))
     = match instance w with
       | Some _ => pred (size (pending w))
       | None => size (pending w)
       end.
Proof.
  intros Hr. apply reachable_wf in Hr.
  pose proof (reachable_next_request_free w Hr) as Hfree.
  split; [|split].
  - intros c gl b g. cbn [step].
    destruct (initialize_eval_exec c gl b g w) as (r' & _ & Hex & _).
    rewrite Hex. cbn [pending set_instance constructed_world].
    apply map_size_insert_None. exact Hfree.
  - intros id. cbn [step].
    destruct (pending w !! id) as [ref|] eqn:Hid;
      [|rewrite animationFrame_not_pending by exact Hid; reflexivity].
    destruct (wf_pending w Hr _ _ Hid) as (r & Hr0 & Hrid).
    destruct (animationFrame_exec id ref r w Hid Hr0) as (r' & He & _).
    rewrite He. cbn [pending loop_world set_pending nextRequestId].
    rewrite map_size_insert_None.
    + rewrite map_size_delete_Some by (eexists; exact Hid).
      assert (size (pending w) <> 0); [|lia].
      intros Hz. apply map_size_empty_inv in Hz. rewrite Hz in Hid.
      rewrite lookup_empty in Hid. discriminate.
    + rewrite lookup_delete_ne; [exact Hfree|].
      pose proof (wf_ids w Hr _ _ _ Hr0 Hrid). lia.
  - cbn [step]. rewrite destroy_exec.
    destruct (instance w) as [i|] eqn:Hi; [|reflexivity].
    destruct (wf_instance w Hr i Hi) as [r Hri].
    destruct (wf_frames w Hr i r Hri) as [_ [id Hid]].
    pose proof (wf_active w Hr i r id Hi Hri Hid) as Hp.
    rewrite Hri. cbn [mbind option_bind]. rewrite Hid.
    cbn [pending set_instance set_pending].
    apply map_size_delete_Some. eexists; exact Hp.
Qed.

Lemma disciplined_reachable w : disciplined w -> reachable w.
Proof. induction 1; constructor; assumption. Qed.

(** X4.  When [initialize] is never called while an instance is active,
    there is never more than one loop: the host holds nothing when there
    is no singleton, and exactly the request of the singleton when there
    is one. *)
Theorem disciplined_use_has_one_loop (w : World) :
  disciplined w ->
  match instance w with
  | Some i =>
      exists r id, heap w !! i = Some r /\ frameRequestId r = Some id
                   /\ pending w = {[ id := i ]}
  | None => pending w = ∅
  end
  /\ size (pending w) <= 1.
Proof.
  intros Hd.
  assert (Hinv : match instance w with
                 | Some i =>
                     exists r id, heap w !! i = Some r /\ frameRequestId r = Some id
                                  /\ pending w = {[ id := i ]}
                 | None => pending w = ∅
                 end).
  { induction Hd as [|c gl b g w Hd IH Hnone|w Hd IH|id w Hd IH].
    - reflexivity.
    - rewrite Hnone in IH. cbn [step].
      destruct (initialize_eval_exec c gl b g w)
        as (r' & _ & Hex & (_ & _ & _ & Hid & _)).
      rewrite Hex. cbn [instance heap pending set_instance constructed_world].
      exists r', (nextRequestId w).
      split; [apply list_lookup_middle; reflexivity|].
      split; [exact Hid|]. rewrite IH. apply insert_empty.
    - cbn [step]. rewrite destroy_exec.
      destruct (instance w) as [i|] eqn:Hi; cbn [instance pending set_instance];
        [|exact IH].
      destruct IH as (r & id & Hr & Hid & Hp).
      rewrite Hr. cbn [mbind option_bind]. rewrite Hid.
      cbn [pending set_pending]. rewrite Hp. apply delete_singleton_eq.
    - cbn [step]. pose proof (reachable_wf w (disciplined_reachable w Hd)) as Hw.
      destruct (pending w !! id) as [ref|] eqn:Hp;
        [|rewrite animationFrame_not_pending by exact Hp; exact IH].
      destruct (instance w) as [i|] eqn:Hi;
        [|rewrite IH, lookup_empty in Hp; discriminate].
      destruct IH as (r & id0 & Hr & Hid & Hpend).
      rewrite Hpend in Hp. apply lookup_singleton_Some in Hp as [<- <-].
      assert (Hp : pending w !! id0 = Some i)
        by (rewrite Hpend; apply lookup_singleton_eq).
      destruct (animationFrame_exec id0 i r w Hp Hr)
        as (r' & He & (_ & _ & _ & Hid' & _)).
      rewrite He. cbn [instance heap pending loop_world set_pending nextRequestId].
      rewrite Hi. exists r', (nextRequestId w).
      split; [apply list_lookup_insert_eq; eapply lookup_lt_Some; exact Hr|].
      split; [exact Hid'|].
      rewrite Hpend, delete_singleton_eq. apply insert_empty. }
  split; [exact Hinv|].
  destruct (instance w) as [i|].
  - destruct Hinv as (r & id & _ & _ & ->). rewrite map_size_singleton. lia.
  - rewrite Hinv, map_size_empty. lia.
Qed.

(** X5.  [debug] looks at the size of the interval only: a negative
    interval gives what its opposite gives.  With the interval 1 it is
    true on every frame, with the interval 0 on none. *)
Theorem debug_interval_edges (r : Renderer) (interval : Z) :
  debug (Some (- interval)%Z) r = debug (Some interval) r
  /\ debug (Some 1%Z) r = true
  /\ debug (Some 0%Z) r = false.
Proof.
  split; [|split].
  - cbv [debug js_rem default from_option id].
    destruct (Z.eqb_spec interval 0) as [->|Hi]; [reflexivity|].
    destruct (Z.eqb_spec (- interval) 0) as [Hz|_]; [lia|].
    rewrite Z.rem_opp_r by exact Hi. reflexivity.
  - cbv [debug js_rem default from_option id]. cbn [Z.eqb].
    rewrite Z.rem_1_r. reflexivity.
  - reflexivity.
Qed.

(** X6.  In a reachable world [debug(interval)] is false for an object
    whose frame counter is below the size of the interval: the frames
    start at 1, so a throttled log with interval [n] is silent on the
    first [n - 1] frames, and [debug()] is false when [initialize]
    returns. *)
Theorem debug_false_before_interval
    (w : World) (ref : Ref) (r : Renderer) (interval : Z) :
  reachable w ->
  heap w !! ref = Some r ->
  (frameCount r < Z.abs interval)%Z ->
  debug (Some interval) r = false
  /\ forall canvas glCanvas bufferCanvas g,
       debug None
         <$> heap (step (AInitialize canvas glCanvas bufferCanvas g) w)
               !! length (heap w)
       = Some false.
Proof.
  intros Hw Hr Hlt. apply reachable_wf in Hw.
  destruct (wf_frames w Hw ref r Hr) as [Hge _]. split.
  - cbv [debug js_rem default from_option id].
    destruct (Z.eqb_spec interval 0) as [->|Hi]; [reflexivity|].
    rewrite (proj2 (Z.rem_small_iff (frameCount r) interval Hi)) by lia.
    apply Z.eqb_neq. lia.
  - intros c gl b g. cbn [step].
    destruct (initialize_eval_exec c gl b g w) as (r' & _ & Hex & (_ & Hfc & _)).
    rewrite Hex. cbn [heap set_instance constructed_world].
    rewrite list_lookup_middle by reflexivity. cbn [fmap option_fmap option_map].
    f_equal. unfold new_fields in Hfc. cbn [frameCount] in Hfc.
    cbv [debug js_rem default from_option id]. rewrite Hfc. reflexivity.
Qed.

Lemma singleton_frame_step w i r :
  wf w -> instance w = Some i -> heap w !! i = Some r ->
  exists id r',
    frameRequestId r = Some id
    /\ singleton_frame w = step (AFrame id) w
    /\ instance (singleton_frame w) = Some i
    /\ heap (singleton_frame w) !! i = Some r'
    /\ frameCount r' = (frameCount r + 1)%Z
    /\ frameRequestId r' = Some (nextRequestId w)
    /\ pending (singleton_frame w) !! nextRequestId w = Some i.
Proof.
  intros Hw Hi Hr.
  destruct (wf_frames w Hw i r Hr) as [_ [id Hid]].
  pose proof (wf_active w Hw i r id Hi Hr Hid) as Hp.
  assert (Hs : singleton_frame w = step (AFrame id) w).
  { unfold singleton_frame, singleton_request. rewrite Hi. cbn [mbind option_bind].
    rewrite Hr. cbn [mbind option_bind]. rewrite Hid. reflexivity. }
  destruct (animationFrame_exec id i r w Hp Hr)
    as (r' & He & (_ & Hfc & _ & Hid' & _)).
  exists id, r'. split; [exact Hid|]. split; [exact Hs|].
  rewrite Hs. cbn [step]. rewrite He.
  cbn [instance heap pending loop_world set_pending nextRequestId].
  split; [exact Hi|].
  split; [apply list_lookup_insert_eq; eapply lookup_lt_Some; exact Hr|].
  split; [exact Hfc|]. split; [exact Hid'|]. apply lookup_insert_eq.
Qed.

(** X7.  The loop of the active instance does not stop by itself: in a
    reachable world, after any number [k] of its frame callbacks the
    instance is still the singleton, its frame counter has advanced by
    [k], and its next callback is pending. *)
Theorem active_loop_keeps_running (w : World) (i : Ref) (r : Renderer) (k : nat) :
  reachable w ->
  instance w = Some i ->
  heap w !! i = Some r ->
  let w' := Nat.iter k singleton_frame w in
  reachable w'
  /\ instance w' = Some i
  /\ exists r' id,
       heap w' !! i = Some r'
       /\ frameCount r' = (frameCount r + Z.of_nat k)%Z
       /\ frameRequestId r' = Some id
       /\ pending w' !! id = Some i.
Proof.
  intros Hw Hi Hr. cbn zeta. induction k as [|k IH].
  - change (Nat.iter 0 singleton_frame w) with w.
    split; [exact Hw|]. split; [exact Hi|].
    pose proof (reachable_wf w Hw) as Hwf.
    destruct (wf_frames w Hwf i r Hr) as [_ [id Hid]].
    exists r, id. split; [exact Hr|]. split; [lia|]. split; [exact Hid|].
    exact (wf_active w Hwf i r id Hi Hr Hid).
  - change (Nat.iter (S k) singleton_frame w)
      with (singleton_frame (Nat.iter k singleton_frame w)).
    destruct IH as (Hw' & Hi' & r1 & id1 & Hr1 & Hfc1 & _ & _).
    remember (Nat.iter k singleton_frame w) as wk eqn:Hwk. clear Hwk.
    destruct (singleton_frame_step wk i r1 (reachable_wf wk Hw') Hi' Hr1)
      as (id & r' & _ & Hs & Hi2 & Hr2 & Hfc2 & Hid2 & Hp2).
    split; [rewrite Hs; constructor; exact Hw'|]. split; [exact Hi2|].
    exists r', (nextRequestId wk).
    split; [exact Hr2|]. split; [lia|]. split; [exact Hid2|]. exact Hp2.
Qed.

Lemma orphaned_step ref a w :
  wf w -> orphaned ref w -> orphaned ref (step a w).
Proof.
  intros Hw [[id Hp] Hne].
  destruct (wf_pending w Hw _ _ Hp) as (r & Hr & Hid).
  assert (Hlt : ref < length (heap w)) by (eapply lookup_lt_Some; exact Hr).
  pose proof (wf_ids w Hw _ _ _ Hr Hid) as Hidlt.
  destruct a as [c gl b g| |id']; cbn [step].
  - destruct (initialize_eval_exec c gl b g w) as (r' & _ & Hex & _).
    rewrite Hex. split.
    + exists id. cbn [pending set_instance constructed_world].
      rewrite lookup_insert_ne by lia. exact Hp.
    + cbn [instance set_instance]. intros [= Heq]. lia.
  - rewrite destroy_exec. split; [|destruct (instance w); cbn; discriminate].
    exists id. destruct (instance w) as [i|] eqn:Hi;
      cbn [pending set_instance set_pending]; [|exact Hp].
    destruct (heap w !! i ≫= frameRequestId) as [k|] eqn:Hk; [|exact Hp].
    rewrite lookup_delete_ne; [exact Hp|]. intros ->.
    destruct (heap w !! i) as [ri|] eqn:Hri; [|discriminate].
    cbn [mbind option_bind] in Hk.
    pose proof (wf_active w Hw i ri id Hi Hri Hk) as Hpi.
    rewrite Hp in Hpi. congruence.
  - destruct (pending w !! id') as [ref'|] eqn:Hp';
      [|rewrite animationFrame_not_pending by exact Hp'; split; [exists id; exact Hp | exact Hne]].
    destruct (wf_pending w Hw _ _ Hp') as (r0 & Hr0 & Hid0).
    destruct (animationFrame_exec id' ref' r0 w Hp' Hr0) as (r' & He & _).
    rewrite He. split; [|exact Hne].
    cbn [pending loop_world set_pending nextRequestId].
    destruct (decide (id' = id)) as [->|Hd].
    + rewrite Hp in Hp'. injection Hp' as <-.
      exists (nextRequestId w). apply lookup_insert_eq.
    + exists id. rewrite lookup_insert_ne by lia.
      rewrite lookup_delete_ne by exact Hd. exact Hp.
Qed.

(** X8.  An orphaned loop cannot be stopped.  In a reachable world, an
    object that has a callback with the host and is not the singleton
    (the loop of an instance that a second [initialize] replaced) keeps a
    callback with the host and stays out of reach of [destroy], whatever
    calls of [initialize] and [destroy] and whatever frames follow. *)
Theorem orphaned_loop_never_stops (w : World) (ref : Ref) (l : list Action) :
  reachable w ->
  orphaned ref w ->
  orphaned ref (run l w).
Proof.
  revert w. induction l as [|a l IH]; intros w Hw Ho.
  - exact Ho.
  - change (run (a :: l) w) with (run l (step a w)).
    apply IH; [constructor; exact Hw|].
    apply orphaned_step; [apply reachable_wf; exact Hw | exact Ho].
Qed.

(** X9.  [initialize] reads the clock twice, in the constructor and in
    the first iteration of the loop, and only the second reading is used:
    it is the timestamp of every [queuePlanets] call that [initialize]
    makes and the value of [this.now] when it returns. *)
Theorem first_frame_uses_loop_timestamp
    (canvas glCanvas bufferCanvas : Canvas) (g : GameUIManager) (w : World) :
  let ref := eval (initialize canvas glCanvas bufferCanvas g) w in
  let w' := exec (initialize canvas glCanvas bufferCanvas g) w in
  let t := Date_now (S (envPos w)) in
  exists calls r',
    trace w' = trace w ++ calls
    /\ filter (fun e => is_clock_read e) calls
       = [EvDateNow (Date_now (envPos w)); EvDateNow t]
    /\ planets_queued_at t calls
    /\ EvQueue (QueuePlanets
                  (fst (getLocationsAndChunks g (S (S (envPos w))))) t) ∈ calls
    /\ heap w' !! ref = Some r'
    /\ now r' = t.
Proof.
  cbn zeta.
  destruct (initialize_eval_exec canvas glCanvas bufferCanvas g w)
    as (r' & Hev & Hex & (_ & _ & Hnow & _)).
  rewrite Hev, Hex. clear Hev Hex. cbn [envPos set_envPos] in Hnow.
  cbn [trace heap set_instance constructed_world].
  eexists _, r'. split; [reflexivity|].
  unfold planets_queued_at, constructor_events, setup_components, loop_events,
    frame_events, plugin_events, at_draw, new_fields.
  cbn [gameUIManager now set_now set_frameCount overlay2dRenderer ctx].
  generalize (getLocationsAndChunks g (S (S (envPos w)))). intros snapshot.
  destruct (getPluginManager g (S (S (S (envPos w))))) as [p|];
    cbn [source_order flush_order fmap list_fmap step_event app];
    (split; [reflexivity|]);
    (split; [repeat (constructor; [intros l t'; try discriminate;
                                   intros [= _ <-]; reflexivity|]);
             constructor|]);
    (split; [apply list_elem_of_lookup; exists 36; reflexivity|]);
    (split; [apply list_lookup_middle; reflexivity | exact Hnow]).
Qed.

End LoopProperties.

(** * Concrete runs of the further properties *)

Example frames_seen_after_three_frames :
  frames_seen_by 0 demo_world_three_frames = [1; 2; 3]%Z
  /\ frameCount <$> heap demo_world_three_frames !! 0 = Some 3%Z
  /\ map_to_list (pending demo_world_three_frames) = [(3, 0)].
Proof. vm_compute. repeat split; reflexivity. Qed.

Example two_loops_after_reinitialize :
  map_to_list (pending demo_world_reinitialized) = [(2, 1); (1, 0)]
  /\ instance demo_world_reinitialized = Some 1
  /\ map_to_list (pending (step ADestroy demo_world_reinitialized)) = [(1, 0)].
Proof. vm_compute. repeat split; reflexivity. Qed.

(** Witness of X1. *)
Lemma frame_counter_counts_draws_witness :
  reachable demo_world_three_frames
  /\ exists r,
       heap demo_world_three_frames !! 0 = Some r
       /\ frameCount r = Z.of_nat (length (frames_seen_by 0 demo_world_three_frames)).
Proof.
  assert (Hr : reachable demo_world_three_frames)
    by (apply reachable_run, reachable_step, reachable_0).
  split; [exact Hr|].
  assert (Hs : is_Some (heap demo_world_three_frames !! 0))
    by (apply lookup_lt_is_Some; vm_compute; lia).
  destruct Hs as [r Hl]. exists r. split; [exact Hl|].
  exact (proj2 (frame_counter_counts_draws demo_world_three_frames 0 r Hr Hl)).
Defined.

(** Witness of X2. *)
Lemma one_callback_per_object_witness :
  reachable demo_world_reinitialized
  /\ pending demo_world_reinitialized !! 1 = Some 0
  /\ exists r, heap demo_world_reinitialized !! 0 = Some r
               /\ frameRequestId r = Some 1.
Proof.
  assert (Hr : reachable demo_world_reinitialized)
    by (apply reachable_step, reachable_step, reachable_0).
  assert (Hp : pending demo_world_reinitialized !! 1 = Some 0)
    by (vm_compute; reflexivity).
  split; [exact Hr|]. split; [exact Hp|].
  exact (proj2 (one_callback_per_object demo_world_reinitialized 1 1 0 Hr Hp Hp)).
Defined.

(** Witness of X3. *)
Lemma scheduled_loops_count_witness :
  reachable demo_world_reinitialized
  /\ forall id,
       size (pending (step (AFrame id) demo_world_reinitialized))
       = size (pending demo_world_reinitialized).
Proof.
  assert (Hr : reachable demo_world_reinitialized)
    by (apply reachable_step, reachable_step, reachable_0).
  split; [exact Hr|].
  exact (proj1 (proj2 (scheduled_loops_count demo_world_reinitialized Hr))).
Defined.

(** Witness of X4. *)
Lemma disciplined_use_has_one_loop_witness :
  disciplined demo_world_restarted
  /\ size (pending demo_world_restarted) <= 1.
Proof.
  assert (Hd : disciplined demo_world_restarted).
  { apply disciplined_initialize; [|vm_compute; reflexivity].
    apply disciplined_destroy, disciplined_initialize;
      [apply disciplined_0 | reflexivity]. }
  split; [exact Hd|].
  exact (proj2 (disciplined_use_has_one_loop demo_world_restarted Hd)).
Defined.

(** Witness of X6. *)
Lemma debug_false_before_interval_witness :
  reachable demo_world
  /\ exists r,
       heap demo_world !! 0 = Some r
       /\ (frameCount r < Z.abs 120)%Z
       /\ debug (Some 120%Z) r = false.
Proof.
  assert (Hr : reachable demo_world) by (apply reachable_step, reachable_0).
  split; [exact Hr|].
  assert (Hs : is_Some (heap demo_world !! 0))
    by (apply lookup_lt_is_Some; vm_compute; lia).
  destruct Hs as [r Hl]. exists r. split; [exact Hl|].
  assert (Hfc : frameCount <$> heap demo_world !! 0 = Some 1%Z)
    by (vm_compute; reflexivity).
  rewrite Hl in Hfc. injection Hfc as Hfc.
  assert (Hlt : (frameCount r < Z.abs 120)%Z) by (rewrite Hfc; reflexivity).
  split; [exact Hlt|].
  exact (proj1 (debug_false_before_interval demo_world 0 r 120 Hr Hl Hlt)).
Defined.

(** Witness of X7. *)
Lemma active_loop_keeps_running_witness :
  reachable demo_world
  /\ instance demo_world = Some 0
  /\ exists r,
       heap demo_world !! 0 = Some r
       /\ instance (Nat.iter 2 singleton_frame demo_world) = Some 0.
Proof.
  assert (Hr : reachable demo_world) by (apply reachable_step, reachable_0).
  assert (Hi : instance demo_world = Some 0) by (vm_compute; reflexivity).
  split; [exact Hr|]. split; [exact Hi|].
  assert (Hs : is_Some (heap demo_world !! 0))
    by (apply lookup_lt_is_Some; vm_compute; lia).
  destruct Hs as [r Hl]. exists r. split; [exact Hl|].
  exact (proj1 (proj2 (active_loop_keeps_running demo_world 0 r 2 Hr Hi Hl))).
Defined.

(** Witness of X8. *)
Lemma orphaned_loop_never_stops_witness :
  reachable demo_world_reinitialized
  /\ orphaned 0 demo_world_reinitialized
  /\ orphaned 0
       (run [ADestroy; AInitialize 6 7 8 demo_gameUIManager; ADestroy; AFrame 1]
          demo_world_reinitialized).
Proof.
  assert (Hr : reachable demo_world_reinitialized)
    by (apply reachable_step, reachable_step, reachable_0).
  assert (Ho : orphaned 0 demo_world_reinitialized).
  { split.
    - exists 1. vm_compute. reflexivity.
    - vm_compute. discriminate. }
  split; [exact Hr|]. split; [exact Ho|].
  exact (orphaned_loop_never_stops demo_world_reinitialized 0
           [ADestroy; AInitialize 6 7 8 demo_gameUIManager; ADestroy; AFrame 1]
           Hr Ho).
Defined.
